(** * Trace-based log correlation of OpsPilot ([src/log_analyzer.py])

    A shallow embedding of the trace-log part of [LogAnalyzer]:
    [_extract_timestamp], [_extract_log_level], [_parse_trace_logs],
    [_parse_trace_logs_from_directory] and [_sort_logs_by_timestamp],
    together with the pieces of the Python library they call
    ([re.search], [str.strip], [str.startswith], [datetime.strptime],
    [sorted]).

    Text.  A Python [str] is a sequence of code points.  Here a character
    is an [ascii], read as the code point of the same number (U+0000 to
    U+00FF), and the character predicates of Python are written out for
    that block. *)

From Stdlib Require Import Bool Arith ZArith List String Ascii Lia.
From Stdlib Require Import Permutation Sorted.
Import ListNotations.
Local Open Scope string_scope.
Local Open Scope nat_scope.
Local Open Scope list_scope.

(* ================================================================== *)
(** ** Characters and strings *)

Module Text.

Definition code (c : ascii) : nat := nat_of_ascii c.

(** [str.isspace] on one character; the same set is what [\s] matches
    in a [str] pattern. *)
Definition is_space (c : ascii) : bool :=
  let n := code c in
  ((9 <=? n) && (n <=? 13)) || ((28 <=? n) && (n <=? 32))
  || (n =? 133) || (n =? 160).

(** [\d] in a [str] pattern: the decimal digits of the block. *)
Definition is_digit (c : ascii) : bool :=
  let n := code c in (48 <=? n) && (n <=? 57).

(** Simple lower-casing, as the regex engine applies it. *)
Definition lower (c : ascii) : ascii :=
  let n := code c in
  if ((65 <=? n) && (n <=? 90))
     || ((192 <=? n) && (n <=? 222) && negb (n =? 215))
  then ascii_of_nat (n + 32) else c.

(** Two characters are equal under [re.IGNORECASE]. *)
Definition ci_eqb (a b : ascii) : bool := Ascii.eqb (lower a) (lower b).

Fixpoint lower_str (s : string) : string :=
  match s with
  | EmptyString => EmptyString
  | String c s' => String (lower c) (lower_str s')
  end.

(** [s.startswith(p)] *)
Definition startswith (s p : string) : bool := String.prefix p s.

(** [needle in hay] *)
Fixpoint contains (needle hay : string) : bool :=
  String.prefix needle hay ||
  match hay with
  | EmptyString => false
  | String _ hay' => contains needle hay'
  end.

Fixpoint lstrip (s : string) : string :=
  match s with
  | EmptyString => EmptyString
  | String c s' => if is_space c then lstrip s' else s
  end.

Fixpoint rstrip (s : string) : string :=
  match s with
  | EmptyString => EmptyString
  | String c s' =>
      let r := rstrip s' in
      if is_space c && String.eqb r EmptyString then EmptyString
      else String c r
  end.

(** [s.strip()] *)
Definition strip (s : string) : string := rstrip (lstrip s).

(** [s.split('.')[0]]: the text before the first occurrence of [sep]. *)
Fixpoint split_head (sep : ascii) (s : string) : string :=
  match s with
  | EmptyString => EmptyString
  | String c s' =>
      if Ascii.eqb c sep then EmptyString else String c (split_head sep s')
  end.

Definition has_char (c : ascii) (s : string) : bool :=
  contains (String c EmptyString) s.

Definition tab : ascii := ascii_of_nat 9.
Definition lf : ascii := ascii_of_nat 10.
Definition cr : ascii := ascii_of_nat 13.

(** Text mode with universal newlines: CR LF and a lone CR are read
    as LF. *)
Fixpoint translate_newlines (s : string) : string :=
  match s with
  | EmptyString => EmptyString
  | String c s' =>
      if Ascii.eqb c cr then
        String lf (match s' with
                   | String c' s'' =>
                       if Ascii.eqb c' lf then translate_newlines s''
                       else translate_newlines s'
                   | EmptyString => EmptyString
                   end)
      else String c (translate_newlines s')
  end.

(** The lines of a text, each with its terminating LF kept. *)
Fixpoint split_lines (s : string) : list string :=
  match s with
  | EmptyString => []
  | String c s' =>
      let r := split_lines s' in
      if Ascii.eqb c lf then String c EmptyString :: r
      else match r with
           | [] => [String c EmptyString]
           | l :: ls => String c l :: ls
           end
  end.

(** [f.readlines()] on the decoded text of a file. *)
Definition readlines (text : string) : list string :=
  split_lines (translate_newlines text).

(** [os.path.basename]: what follows the last slash. *)
Fixpoint basename (p : string) : string :=
  match p with
  | EmptyString => EmptyString
  | String c p' =>
      if has_char "/" p then basename p' else p
  end.

End Text.

(* ================================================================== *)
(** ** The regular expressions of the module

    The patterns of [log_analyzer.py] are sequences of single characters,
    character classes, [\s*] and [\s+]; [re.escape] turns the trace id
    into a sequence of literal characters. *)

Module Re.
Import Text.

Inductive atom : Type :=
| Lit (c : ascii)          (* a literal character *)
| Digit                    (* \d *)
| Space                    (* \s *)
| OneOf (cs : list ascii). (* [..] *)

Inductive item : Type :=
| One (a : atom)
| Many0 (a : atom)         (* a*, greedy *)
| Many1 (a : atom).        (* a+, greedy *)

Definition pattern := list item.

(** One character against one atom; [ic] is [re.IGNORECASE]. *)
Definition atom_match (ic : bool) (a : atom) (ch : ascii) : bool :=
  match a with
  | Lit c => if ic then ci_eqb c ch else Ascii.eqb c ch
  | Digit => is_digit ch
  | Space => is_space ch
  | OneOf cs =>
      existsb (fun c => if ic then ci_eqb c ch else Ascii.eqb c ch) cs
  end.

(** Greedy repetition of [a], then the continuation [k]; gives back one
    character at a time when [k] fails. *)
Fixpoint star (ic : bool) (a : atom) (k : string -> option string)
         (s : string) : option string :=
  match s with
  | String ch s' =>
      if atom_match ic a ch then
        match star ic a k s' with
        | Some m => Some (String ch m)
        | None => k s
        end
      else k s
  | EmptyString => k s
  end.

(** The text matched by [p] at the start of [s], if [p] matches there. *)
Fixpoint match_here (ic : bool) (p : pattern) : string -> option string :=
  fun s =>
  match p with
  | [] => Some EmptyString
  | One a :: p' =>
      match s with
      | String ch s' =>
          if atom_match ic a ch
          then option_map (String ch) (match_here ic p' s')
          else None
      | EmptyString => None
      end
  | Many0 a :: p' => star ic a (match_here ic p') s
  | Many1 a :: p' =>
      match s with
      | String ch s' =>
          if atom_match ic a ch
          then option_map (String ch) (star ic a (match_here ic p') s')
          else None
      | EmptyString => None
      end
  end.

(** [re.search(p, s)]: the leftmost match; [Some m] carries [group(0)]. *)
Fixpoint search (ic : bool) (p : pattern) (s : string) : option string :=
  match match_here ic p s with
  | Some m => Some m
  | None =>
      match s with
      | String _ s' => search ic p s'
      | EmptyString => None
      end
  end.

Fixpoint lits (s : string) : pattern :=
  match s with
  | EmptyString => []
  | String c s' => One (Lit c) :: lits s'
  end.

(** [re.escape(s)] matches [s] literally. *)
Definition escape (s : string) : pattern := lits s.

(** [\d{n}] *)
Definition digits (n : nat) : pattern := repeat (One Digit) n.

End Re.

(* ================================================================== *)
(** ** [datetime] and [datetime.strptime]

    [strptime] turns the format into a regular expression (one group of
    ordered alternatives per directive, [\s+] for white space, the other
    characters literally, all under [re.IGNORECASE]), takes the first
    match at the start of the text in backtracking order, refuses text
    left over, and builds the [datetime], whose constructor checks the
    ranges.  Every failure is a [ValueError], here [None].  The groups
    are those of [_strptime.TimeRE] of CPython 3.8 to 3.12. *)

Module Datetime.
Import Text.
Local Open Scope Z_scope.

Record datetime : Type := mkDatetime {
  year : Z; month : Z; day : Z;
  hour : Z; minute : Z; second : Z; microsecond : Z
}.

(** [datetime.min] *)
Definition datetime_min : datetime := mkDatetime 1 1 1 0 0 0 0.

Definition as_tuple (t : datetime) : list Z :=
  [year t; month t; day t; hour t; minute t; second t; microsecond t].

Fixpoint lex_ltb (a b : list Z) : bool :=
  match a, b with
  | [], [] => false
  | [], _ :: _ => true
  | _ :: _, [] => false
  | x :: a', y :: b' =>
      if x <? y then true else if y <? x then false else lex_ltb a' b'
  end.

(** [t1 < t2] on datetimes: the fields compared in order. *)
Definition ltb (t1 t2 : datetime) : bool :=
  lex_ltb (as_tuple t1) (as_tuple t2).

(** [t1 <= t2] *)
Definition leb (t1 t2 : datetime) : bool := negb (ltb t2 t1).

Definition is_leap (y : Z) : bool :=
  (y mod 4 =? 0) && (negb (y mod 100 =? 0) || (y mod 400 =? 0)).

Definition days_in_month (y m : Z) : Z :=
  if m =? 2 then (if is_leap y then 29 else 28)
  else if (m =? 4) || (m =? 6) || (m =? 9) || (m =? 11) then 30
  else 31.

(** The directives of the five formats of [parse_timestamp]. *)
Inductive field : Type := FY | Fm | Fd | FH | FM | FS | Ff.

Inductive directive : Type :=
| Dir (k : field)      (* %Y %m %d %H %M %S %f *)
| DChar (c : ascii)    (* any other character *)
| DWs.                 (* white space in the format *)

(** A range of character codes. *)
Definition crange : Type := (nat * nat)%type.
Definition dg (a b : nat) : crange := (48 + a, 48 + b)%nat.
Definition sp : crange := (32, 32)%nat.

Definition in_range (r : crange) (c : ascii) : bool :=
  ((fst r <=? code c) && (code c <=? snd r))%nat.

(** The alternatives of each directive, in the order the regular
    expression of [_strptime] lists them. *)
Definition alts (k : field) : list (list crange) :=
  match k with
  | FY => [[dg 0 9; dg 0 9; dg 0 9; dg 0 9]]
  | Fm => [[dg 1 1; dg 0 2]; [dg 0 0; dg 1 9]; [dg 1 9]]
  | Fd => [[dg 3 3; dg 0 1]; [dg 1 2; dg 0 9]; [dg 0 0; dg 1 9];
           [dg 1 9]; [sp; dg 1 9]]
  | FH => [[dg 2 2; dg 0 3]; [dg 0 1; dg 0 9]; [dg 0 9]]
  | FM => [[dg 0 5; dg 0 9]; [dg 0 9]]
  | FS => [[dg 6 6; dg 0 1]; [dg 0 5; dg 0 9]; [dg 0 9]]
  | Ff => map (repeat (dg 0 9)) [6; 5; 4; 3; 2; 1]%nat
  end.

Fixpoint match_alt (alt : list crange) (s : string)
  : option (string * string) :=
  match alt with
  | [] => Some (EmptyString, s)
  | r :: alt' =>
      match s with
      | String c s' =>
          if in_range r c then
            match match_alt alt' s' with
            | Some (t, rest) => Some (String c t, rest)
            | None => None
            end
          else None
      | EmptyString => None
      end
  end.

(** [int(text)] for the text of a group: digits, after an optional
    blank. *)
Fixpoint int_acc (acc : Z) (s : string) : Z :=
  match s with
  | EmptyString => acc
  | String c s' =>
      if is_digit c
      then int_acc (10 * acc + Z.of_nat (code c - 48)) s'
      else int_acc acc s'
  end.
Definition int (s : string) : Z := int_acc 0 s.

(** The fraction of [%f], padded with zeros on the right to six
    digits. *)
Definition fraction (s : string) : Z :=
  int s * 10 ^ (6 - Z.of_nat (String.length s)).

Record fields : Type := mkFields {
  gY : Z; gm : Z; gd : Z; gH : Z; gM : Z; gS : Z; gf : Z
}.

Definition no_fields : fields := mkFields 1900 1 1 0 0 0 0.

Definition set_field (k : field) (txt : string) (a : fields) : fields :=
  match k with
  | FY => mkFields (int txt) (gm a) (gd a) (gH a) (gM a) (gS a) (gf a)
  | Fm => mkFields (gY a) (int txt) (gd a) (gH a) (gM a) (gS a) (gf a)
  | Fd => mkFields (gY a) (gm a) (int txt) (gH a) (gM a) (gS a) (gf a)
  | FH => mkFields (gY a) (gm a) (gd a) (int txt) (gM a) (gS a) (gf a)
  | FM => mkFields (gY a) (gm a) (gd a) (gH a) (int txt) (gS a) (gf a)
  | FS => mkFields (gY a) (gm a) (gd a) (gH a) (gM a) (int txt) (gf a)
  | Ff => mkFields (gY a) (gm a) (gd a) (gH a) (gM a) (gS a) (fraction txt)
  end.

Fixpoint first_alt {A B : Type} (f : A -> option B) (l : list A)
  : option B :=
  match l with
  | [] => None
  | a :: l' =>
      match f a with
      | Some r => Some r
      | None => first_alt f l'
      end
  end.

(** [\s*] then [k], greedy with backtracking. *)
Fixpoint ws_star {A : Type} (k : string -> option A) (s : string)
  : option A :=
  match s with
  | String c s' =>
      if is_space c then
        match ws_star k s' with
        | Some r => Some r
        | None => k s
        end
      else k s
  | EmptyString => k s
  end.

(** The first match of the format at the start of [s]: the fields read
    and the text left. *)
Fixpoint run (fmt : list directive) (s : string) (a : fields)
  : option (fields * string) :=
  match fmt with
  | [] => Some (a, s)
  | DChar c :: fmt' =>
      match s with
      | String ch s' => if ci_eqb c ch then run fmt' s' a else None
      | EmptyString => None
      end
  | DWs :: fmt' =>
      match s with
      | String ch s' =>
          if is_space ch then ws_star (fun r => run fmt' r a) s' else None
      | EmptyString => None
      end
  | Dir k :: fmt' =>
      first_alt
        (fun alt =>
           match match_alt alt s with
           | Some (txt, rest) => run fmt' rest (set_field k txt a)
           | None => None
           end)
        (alts k)
  end.

(** The [datetime] constructor: [None] where it raises [ValueError]. *)
Definition make_datetime (a : fields) : option datetime :=
  if (1 <=? gY a) && (gY a <=? 9999)
     && (1 <=? gm a) && (gm a <=? 12)
     && (1 <=? gd a) && (gd a <=? days_in_month (gY a) (gm a))
     && (0 <=? gH a) && (gH a <=? 23)
     && (0 <=? gM a) && (gM a <=? 59)
     && (0 <=? gS a) && (gS a <=? 59)
     && (0 <=? gf a) && (gf a <=? 999999)
  then Some (mkDatetime (gY a) (gm a) (gd a) (gH a) (gM a) (gS a) (gf a))
  else None.

(** [datetime.strptime(ts, fmt)] *)
Definition strptime (ts : string) (fmt : list directive)
  : option datetime :=
  match run fmt ts no_fields with
  | Some (a, rest) =>
      if String.eqb rest EmptyString then make_datetime a else None
  | None => None
  end.

End Datetime.

(* ================================================================== *)
(** ** [sorted(xs, key=f)]

    Python's [sorted] is stable and compares keys with [<] only.  The
    model is the stable insertion sort: an element goes before the first
    element already placed whose key is not smaller than its own. *)

Section SortedByKey.
Variables (A K : Type) (key : A -> K) (lt : K -> K -> bool).

Fixpoint insert_by (x : A) (s : list A) : list A :=
  match s with
  | [] => [x]
  | y :: s' =>
      if lt (key y) (key x) then y :: insert_by x s' else x :: y :: s'
  end.

Fixpoint sorted_by (l : list A) : list A :=
  match l with
  | [] => []
  | x :: l' => insert_by x (sorted_by l')
  end.

(** [a] may stand before [b] in sorted order: the key of [b] is not
    smaller than the key of [a]. *)
Definition not_after (a b : A) : Prop := lt (key b) (key a) = false.
End SortedByKey.

Arguments not_after {A K} key lt a b.
Arguments insert_by {A K} key lt x s.
Arguments sorted_by {A K} key lt l.

(* ================================================================== *)
(** ** [LogAnalyzer]: the trace-log functions *)

Module LogAnalyzer.
Import Text Re Datetime.

Inductive log_level : Type := ERROR | WARN | INFO | DEBUG | UNKNOWN.

Definition level_eqb (a b : log_level) : bool :=
  match a, b with
  | ERROR, ERROR | WARN, WARN | INFO, INFO
  | DEBUG, DEBUG | UNKNOWN, UNKNOWN => true
  | _, _ => false
  end.

(** The dictionary built for one matched line; [source_file] is the key
    that only the directory scan adds. *)
Record log_entry : Type := mkEntry {
  line_number : nat;
  timestamp : string;
  level : log_level;
  content : string;
  stack_trace : list string;
  source_file : option string
}.

(** The value under ['file']: the path, or the summary text of a
    directory scan, which only carries the number of files. *)
Inductive descriptor : Type :=
| FilePath (p : string)
| DirectoryScan (n : nat).

(** The dictionary returned by both parsers; ['source_files'] is present
    only in the result of the directory scan. *)
Record trace_result : Type := mkResult {
  trace_id : string;
  file : descriptor;
  source_files : option (list string);
  total_logs : nat;
  error_count : nat;
  warn_count : nat;
  info_count : nat;
  logs : list log_entry
}.

(** *** [_extract_timestamp] *)

Definition sep (c : ascii) : pattern := [One (Lit c)].

Definition hms : pattern :=
  digits 2 ++ sep ":" ++ digits 2 ++ sep ":" ++ digits 2.

Definition timestamp_patterns : list pattern :=
  [ digits 4 ++ sep "-" ++ digits 2 ++ sep "-" ++ digits 2
      ++ [Many1 Space] ++ hms;
    digits 4 ++ sep "-" ++ digits 2 ++ sep "-" ++ digits 2
      ++ sep "T" ++ hms;
    digits 2 ++ sep "/" ++ digits 2 ++ sep "/" ++ digits 4
      ++ [Many1 Space] ++ hms ].

Fixpoint first_search (ps : list pattern) (line : string)
  : option string :=
  match ps with
  | [] => None
  | p :: ps' =>
      match search false p line with
      | Some m => Some m
      | None => first_search ps' line
      end
  end.

Definition _extract_timestamp (line : string) : string :=
  match first_search timestamp_patterns line with
  | Some m => m
  | None => "Unknown"
  end.

(** *** [_extract_log_level] *)

Definition _extract_log_level (line : string) : log_level :=
  if contains "ERROR" line then ERROR
  else if contains "WARN" line then WARN
  else if contains "INFO" line then INFO
  else if contains "DEBUG" line then DEBUG
  else UNKNOWN.

(** *** [_parse_trace_logs] *)

Definition keyed (name : string) (trace_id : string) : pattern :=
  lits name ++ [One (OneOf ["="; ":"]%char); Many0 Space]
    ++ escape trace_id.

Definition trace_patterns (trace_id : string) : list pattern :=
  [ keyed "traceId" trace_id;
    keyed "trace_id" trace_id;
    sep "[" ++ escape trace_id ++ sep "]";
    keyed "requestId" trace_id;
    keyed "request_id" trace_id;
    escape trace_id ].

Definition found (r : option string) : bool :=
  match r with Some _ => true | None => false end.

(** [any(re.search(pattern, line, re.IGNORECASE) for pattern in
    trace_patterns)] *)
Definition line_matches (trace_id line : string) : bool :=
  existsb (fun p => found (search true p line)) (trace_patterns trace_id).

(** The test of the inner [while]: a continuation line. *)
Definition is_continuation (line : string) : bool :=
  startswith line (String tab EmptyString)
  || startswith line "    "
  || startswith line "at ".

(** The continuation lines at the head of [ls]. *)
Fixpoint take_continuation (ls : list string) : list string :=
  match ls with
  | [] => []
  | l :: ls' =>
      if is_continuation l then l :: take_continuation ls' else []
  end.

(** The local variables of the scan. *)
Record locals : Type := mkLocals {
  v_i : nat;
  v_logs : list log_entry;
  v_error_count : nat;
  v_warn_count : nat;
  v_info_count : nat
}.

(** The inner [while]: from index [i], append the stripped continuation
    lines to the stack trace; returns the index reached and the trace. *)
Fixpoint collect_stack (fuel : nat) (lines : list string) (i : nat)
         (stack : list string) : nat * list string :=
  match fuel with
  | O => (i, stack)
  | S fuel' =>
      if (i <? List.length lines) && is_continuation (nth i lines "")
      then collect_stack fuel' lines (i + 1)
             (stack ++ [strip (nth i lines "")])
      else (i, stack)
  end.

(** One turn of the outer [while]. *)
Definition loop_body (lines : list string) (trace_id : string)
           (st : locals) : locals :=
  let i := v_i st in
  let line := nth i lines "" in
  if line_matches trace_id line then
    let lvl := _extract_log_level line in
    let ec := match lvl with ERROR => v_error_count st + 1
                        | _ => v_error_count st end in
    let wc := match lvl with WARN => v_warn_count st + 1
                        | _ => v_warn_count st end in
    let ic := match lvl with INFO => v_info_count st + 1
                        | _ => v_info_count st end in
    let '(i', stack) :=
      match lvl with
      | ERROR =>
          let '(j, stk) :=
            collect_stack (List.length lines) lines (i + 1) [] in
          (j - 1, stk)
      | _ => (i, [])
      end in
    let log_entry :=
      mkEntry (i + 1) (_extract_timestamp line) lvl (strip line)
              stack None in
    mkLocals (i' + 1) (v_logs st ++ [log_entry]) ec wc ic
  else
    mkLocals (i + 1) (v_logs st) (v_error_count st) (v_warn_count st)
             (v_info_count st).

(** The outer [while i < len(lines)]. *)
Fixpoint scan (fuel : nat) (lines : list string) (trace_id : string)
         (st : locals) : locals :=
  match fuel with
  | O => st
  | S fuel' =>
      if v_i st <? List.length lines
      then scan fuel' lines trace_id (loop_body lines trace_id st)
      else st
  end.

(** A file system: the decoded text of a file, or [None] where [open]
    or [readlines] raises. *)
Definition filesystem : Type := string -> option string.

Definition _parse_trace_logs (fs : filesystem)
           (log_file trace_id : string) : trace_result :=
  match fs log_file with
  | Some text =>
      let lines := readlines text in
      let st := scan (List.length lines) lines trace_id
                     (mkLocals 0 [] 0 0 0) in
      mkResult trace_id (FilePath log_file) None
               (List.length (v_logs st))
               (v_error_count st) (v_warn_count st) (v_info_count st)
               (v_logs st)
  | None =>
      mkResult trace_id (FilePath log_file) None 0 0 0 0 []
  end.

(** *** [_sort_logs_by_timestamp] *)

Definition dash : directive := DChar "-".
Definition colon : directive := DChar ":".
Definition date_ymd : list directive :=
  [Dir FY; dash; Dir Fm; dash; Dir Fd].
Definition time_hms : list directive :=
  [Dir FH; colon; Dir FM; colon; Dir FS].

Definition formats : list (list directive) :=
  [ date_ymd ++ [DWs] ++ time_hms;
    date_ymd ++ [DWs] ++ time_hms ++ [DChar "."; Dir Ff];
    date_ymd ++ [DChar "T"] ++ time_hms;
    date_ymd ++ [DChar "T"] ++ time_hms ++ [DChar "."; Dir Ff];
    [Dir Fd; DChar "/"; Dir Fm; DChar "/"; Dir FY; DWs] ++ time_hms ].

(** The [for fmt in formats] loop: the first format that parses. *)
Fixpoint try_formats (timestamp : string) (fmts : list (list directive))
  : option datetime :=
  match fmts with
  | [] => None
  | fmt :: fmts' =>
      let ts :=
        if has_char "." timestamp && negb (has_char "T" timestamp)
        then split_head "." timestamp else timestamp in
      match strptime ts fmt with
      | Some t => Some t
      | None => try_formats timestamp fmts'
      end
  end.

(** The resolved point in time of an entry, when it has one: the value
    [parse_timestamp] returns from inside its loop. *)
Definition timestampParsed (log : log_entry) : option datetime :=
  if String.eqb (timestamp log) "Unknown" then None
  else try_formats (timestamp log) formats.

(** The sort key: [datetime.min] stands for a timestamp that is
    ["Unknown"] or that no format parses. *)
Definition parse_timestamp (log : log_entry) : datetime :=
  if String.eqb (timestamp log) "Unknown" then datetime_min
  else match try_formats (timestamp log) formats with
       | Some t => t
       | None => datetime_min
       end.

Definition _sort_logs_by_timestamp (logs : list log_entry)
  : list log_entry :=
  sorted_by parse_timestamp Datetime.ltb logs.

(** The entry has no resolved point in time. *)
Definition is_absent (log : log_entry) : bool :=
  match timestampParsed log with None => true | Some _ => false end.

(** The entry [e] is the one the scan builds for the line of its
    number. *)
Definition from_line (lines : list string) (tid : string)
           (e : log_entry) : Prop :=
  1 <= line_number e <= List.length lines /\
  let line := nth (line_number e - 1) lines "" in
  line_matches tid line = true /\
  timestamp e = _extract_timestamp line /\
  level e = _extract_log_level line /\
  content e = strip line /\
  source_file e = None.

(** What the scan keeps true about entries that are not errors: no
    stack trace; and once the index has passed the next line, that line
    has its own entry if it matches. *)
Definition next_line_kept (lines : list string) (tid : string)
           (st : locals) : Prop :=
  forall e, In e (v_logs st) -> level e <> ERROR ->
    stack_trace e = [] /\
    line_number e <= v_i st /\
    (line_number e < v_i st ->
     line_matches tid (nth (line_number e) lines "") = true ->
     exists e', In e' (v_logs st) /\
                line_number e' = line_number e + 1 /\
                content e' = strip (nth (line_number e) lines "") /\
                level e' = _extract_log_level (nth (line_number e) lines "")).

(** What one entry adds to the counter of a level. *)
Definition one_if (b : bool) : nat := if b then 1 else 0.

(** How many entries of [l] have the level [lv]. *)
Definition count_level (lv : log_level) (l : list log_entry) : nat :=
  List.length (filter (fun e => level_eqb (level e) lv) l).

(** *** [_parse_trace_logs_from_directory] *)

Definition with_source_file (name : string) (log : log_entry)
  : log_entry :=
  mkEntry (line_number log) (timestamp log) (level log) (content log)
          (stack_trace log) (Some name).

Record totals : Type := mkTotals {
  all_logs : list log_entry;
  t_error_count : nat;
  t_warn_count : nat;
  t_info_count : nat;
  t_source_files : list string
}.

(** One turn of [for log_file in log_files]. *)
Definition add_file (fs : filesystem) (trace_id : string)
           (acc : totals) (log_file : string) : totals :=
  let file_logs := _parse_trace_logs fs log_file trace_id in
  match logs file_logs with
  | [] => acc
  | _ :: _ =>
      mkTotals
        (all_logs acc
           ++ map (with_source_file (basename log_file)) (logs file_logs))
        (t_error_count acc + error_count file_logs)
        (t_warn_count acc + warn_count file_logs)
        (t_info_count acc + info_count file_logs)
        (t_source_files acc ++ [log_file])
  end.

(** The entries of one file as the directory scan adds them. *)
Definition tagged (fs : filesystem) (tid f : string) : list log_entry :=
  map (with_source_file (basename f)) (logs (_parse_trace_logs fs f tid)).

(** The test [if file_logs['logs']] of the directory scan. *)
Definition contributes (fs : filesystem) (tid f : string) : bool :=
  match logs (_parse_trace_logs fs f tid) with [] => false | _ => true end.

Definition _parse_trace_logs_from_directory (fs : filesystem)
           (log_files : list string) (trace_id : string) : trace_result :=
  let acc := fold_left (add_file fs trace_id) log_files
                       (mkTotals [] 0 0 0 []) in
  let sorted_logs := _sort_logs_by_timestamp (all_logs acc) in
  mkResult trace_id (DirectoryScan (List.length log_files))
           (Some (t_source_files acc))
           (List.length sorted_logs)
           (t_error_count acc) (t_warn_count acc) (t_info_count acc)
           sorted_logs.

End LogAnalyzer.

(* ================================================================== *)
(** ** [LogAnalyzer]: the analysis of a whole log file

    [_is_error_line] and [_parse_log_file], with [Counter] and its
    [most_common]. *)

Module FullLog.
Import Text Re LogAnalyzer.

(** [\w] in a [str] pattern: the characters of the block that are
    alphanumeric for [str.isalnum], and the underscore. *)
Definition is_word (c : ascii) : bool :=
  let n := code c in
  ((48 <=? n) && (n <=? 57)) || ((65 <=? n) && (n <=? 90)) || (n =? 95)
  || ((97 <=? n) && (n <=? 122))
  || (n =? 170) || (n =? 178) || (n =? 179) || (n =? 181) || (n =? 185)
  || (n =? 186) || ((188 <=? n) && (n <=? 190))
  || ((192 <=? n) && (n <=? 214)) || ((216 <=? n) && (n <=? 246))
  || ((248 <=? n) && (n <=? 255)).

(** The class [\w] as a set of characters. *)
Definition word : atom :=
  OneOf (filter is_word (map ascii_of_nat (seq 0 256))).

(** The two alternatives of [(\w+Exception|\w+Error)]. *)
Definition exception_patterns : list pattern :=
  [ Many1 word :: lits "Exception"; Many1 word :: lits "Error" ].

(** The first alternative that matches at the start of [s]. *)
Fixpoint first_match (ps : list pattern) (s : string) : option string :=
  match ps with
  | [] => None
  | p :: ps' =>
      match match_here false p s with
      | Some m => Some m
      | None => first_match ps' s
      end
  end.

(** [re.search] for a group of alternatives: the leftmost position at
    which one of them matches, the alternatives tried in order. *)
Fixpoint search_any (ps : list pattern) (s : string) : option string :=
  match first_match ps s with
  | Some m => Some m
  | None =>
      match s with
      | String _ s' => search_any ps s'
      | EmptyString => None
      end
  end.

Definition error_keywords : list string :=
  ["ERROR"; "Exception"; "Error:"; "Caused by:"; "at "]%string.

Definition _is_error_line (line : string) : bool :=
  existsb (fun keyword => contains keyword line) error_keywords
  && negb (startswith line (String tab EmptyString)
           || startswith line "    "
           || startswith line "at ").

(** The dictionary built for one error line. *)
Record error_entry : Type := mkError {
  timestamp : string;
  level : log_level;
  message : string;
  stack_trace : list string;
  exception_type : option string
}.

(** The local variables of the scan. *)
Record locals : Type := mkLocals {
  v_i : nat;
  v_errors : list error_entry;
  v_error_types : list string
}.

(** One turn of [while i < len(lines)]; the inner [while] is the one of
    the trace scan. *)
Definition loop_body (lines : list string) (st : locals) : locals :=
  let i := v_i st in
  let line := nth i lines "" in
  if _is_error_line line then
    let exception_match := search_any exception_patterns line in
    let error_types :=
      match exception_match with
      | Some t => v_error_types st ++ [t]
      | None => v_error_types st
      end in
    let '(j, stack) :=
      collect_stack (List.length lines) lines (i + 1) [] in
    mkLocals j
      (v_errors st ++
         [mkError (_extract_timestamp line) ERROR (strip line)
                  stack exception_match])
      error_types
  else mkLocals (i + 1) (v_errors st) (v_error_types st).

Fixpoint scan (fuel : nat) (lines : list string) (st : locals) : locals :=
  match fuel with
  | O => st
  | S fuel' =>
      if v_i st <? List.length lines
      then scan fuel' lines (loop_body lines st)
      else st
  end.

(** [Counter]: the keys in the order of their first occurrence, each with
    the number of its occurrences. *)
Fixpoint counter_add (k : string) (c : list (string * nat))
  : list (string * nat) :=
  match c with
  | [] => [(k, 1)]
  | (k', n) :: c' =>
      if String.eqb k k' then (k', n + 1) :: c'
      else (k', n) :: counter_add k c'
  end.

Definition Counter (l : list string) : list (string * nat) :=
  fold_left (fun c k => counter_add k c) l [].

(** [c[k]]: the count of a key, zero for a key that is missing. *)
Definition count_of (c : list (string * nat)) (k : string) : nat :=
  match find (fun p => String.eqb k (fst p)) c with
  | Some p => snd p
  | None => 0
  end.

(** [most_common(n)]: the items in decreasing order of count, items of
    equal count in the order of the counter, cut after [n]. *)
Definition most_common (n : nat) (c : list (string * nat))
  : list (string * nat) :=
  firstn n (sorted_by snd (fun a b => b <? a) c).

Record log_data : Type := mkLogData {
  file : string;
  total_lines : nat;
  error_count : nat;
  errors : list error_entry;
  error_types : list (string * nat)
}.

Definition _parse_log_file (fs : filesystem) (log_file : string)
  : log_data :=
  match fs log_file with
  | Some text =>
      let lines := readlines text in
      let st := scan (List.length lines) lines (mkLocals 0 [] []) in
      mkLogData log_file (List.length lines) (List.length (v_errors st))
                (v_errors st)
                (most_common 10 (Counter (v_error_types st)))
  | None => mkLogData log_file 0 0 [] []
  end.

End FullLog.

(* ================================================================== *)
(** ** [LogAnalyzer]: the scan of a directory for log files *)

Module FileScan.
Import Text LogAnalyzer.

(** [s.endswith(p)]: some tail of [s] is [p]. *)
Fixpoint endswith (s p : string) : bool :=
  String.eqb s p ||
  match s with
  | EmptyString => false
  | String _ s' => endswith s' p
  end.

(** [os.path.join(a, b)] *)
Definition join (a b : string) : string :=
  if startswith b "/" then b
  else if String.eqb a "" || endswith a "/" then (a ++ b)%string
  else (a ++ "/" ++ b)%string.

(** [a < b] on strings: character by character, by code point. *)
Fixpoint str_ltb (a b : string) : bool :=
  match a, b with
  | EmptyString, EmptyString => false
  | EmptyString, String _ _ => true
  | String _ _, EmptyString => false
  | String x a', String y b' =>
      if code x <? code y then true
      else if code y <? code x then false
      else str_ltb a' b'
  end.

(** One step of [os.walk]: a directory, its sub-directories, its files. *)
Definition walk_entry : Type := (string * list string * list string)%type.

(** [os.walk]: the steps of the walk of a directory, or [None] where it
    raises. *)
Definition walker : Type := string -> option (list walk_entry).

Definition log_extensions : list string := [".log"; ".txt"; ".out"]%string.

Definition is_log_name (file : string) : bool :=
  existsb (fun ext => endswith file ext) log_extensions.

(** The paths appended by the two [for] loops, in the order of the
    walk. *)
Definition found_files (entries : list walk_entry) : list string :=
  flat_map
    (fun e : walk_entry =>
       let '(root, _, files) := e in
       map (join root) (filter is_log_name files))
    entries.

Definition _scan_log_files (walk : walker) (directory : string)
  : list string :=
  match walk directory with
  | Some entries => sorted_by (fun p => p) str_ltb (found_files entries)
  | None => []
  end.

End FileScan.

(* ================================================================== *)
(** ** Sample sources *)

Module Samples.
Import Text LogAnalyzer.

(** The text of a file whose lines are [ls], each ended by LF. *)
Fixpoint unlines (ls : list string) : string :=
  match ls with
  | [] => EmptyString
  | l :: ls' => (l ++ String lf (unlines ls'))%string
  end.

(** A file system in which every path holds the same text. *)
Definition holding (text : string) : filesystem := fun _ => Some text.

(** A file system with one unreadable path. *)
Definition unreadable (bad : string) (text : string) : filesystem :=
  fun p => if String.eqb p bad then None else Some text.

(** The four lines of the scenario of the specification. *)
Definition scenario : list string :=
  [ "2024-01-01 10:00:00 INFO [req-42] start";
    "2024-01-01 10:00:05 ERROR [req-42] boom";
    String tab "at com.foo.Bar.baz";
    "2024-01-01 09:59:59 WARN [req-42] before" ]%string.

(** A valid first instant of the calendar, then a line without a
    timestamp. *)
Definition first_instant : list string :=
  [ "0001-01-01 00:00:00 INFO [req-42] first";
    "INFO [req-42] second" ]%string.

(** A timestamp of the right shape that is no date: 30 February. *)
Definition no_such_day : list string :=
  [ "2024-02-30 10:00:00 ERROR [req-42] boom" ]%string.

(** A warning with an indented line that carries the identifier. *)
Definition warning_with_detail : list string :=
  [ "2024-01-01 10:00:00 WARN [req-42] slow call";
    "    detail for [req-42]" ]%string.

End Samples.

(* ================================================================== *)
(** * Properties *)

(** ** Strings *)

Section TextFacts.
Import Text.

Lemma append_empty_r (s : string) : (s ++ "")%string = s.
Proof. induction s as [|c s IH]; simpl; congruence. Qed.

Lemma append_assoc3 (a b c : string) :
  ((a ++ b) ++ c)%string = (a ++ b ++ c)%string.
Proof. induction a as [|x a IH]; simpl; congruence. Qed.

Lemma prefix_iff (p s : string) :
  String.prefix p s = true <-> exists post, s = (p ++ post)%string.
Proof.
  revert s; induction p as [|a p IH]; intros s.
  - destruct s; simpl; split; eauto.
  - destruct s as [|b s]; simpl.
    + split; [discriminate | intros [post H]; discriminate].
    + destruct (ascii_dec a b) as [->|Hab].
      * rewrite IH. split; intros [post H]; exists post; congruence.
      * split; [discriminate | intros [post H]; congruence].
Qed.

(** [needle in hay] holds exactly when [hay] has [needle] somewhere
    inside, character for character. *)
Lemma contains_iff (needle hay : string) :
  contains needle hay = true
  <-> exists pre post, hay = (pre ++ needle ++ post)%string.
Proof.
  induction hay as [|c hay IH]; cbn [contains].
  - rewrite orb_false_r, prefix_iff. split.
    + intros [post H]. exists ""%string, post. exact H.
    + intros [pre [post H]]. destruct pre; [eauto | discriminate].
  - rewrite orb_true_iff, IH, prefix_iff. split.
    + intros [[post H] | [pre [post H]]].
      * exists ""%string, post. exact H.
      * exists (String c pre), post. simpl. congruence.
    + intros [pre [post H]]. destruct pre as [|x pre]; simpl in H.
      * left. eauto.
      * right. exists pre, post. congruence.
Qed.

Lemma contains_false_iff (needle hay : string) :
  contains needle hay = false
  <-> ~ exists pre post, hay = (pre ++ needle ++ post)%string.
Proof.
  rewrite <- contains_iff. destruct (contains needle hay); split;
    congruence.
Qed.

Lemma lower_str_nil (s : string) : lower_str s = ""%string -> s = ""%string.
Proof. destruct s; simpl; [reflexivity | discriminate]. Qed.

End TextFacts.

(** ** Regular expressions *)

Section ReFacts.
Import Text Re.

Lemma lits_app (a b : string) : lits (a ++ b) = lits a ++ lits b.
Proof. induction a as [|c a IH]; simpl; congruence. Qed.

(** A literal pattern matches, under [re.IGNORECASE], any text that
    lower-cases to the same characters. *)
Lemma match_here_lits (t mid post : string) :
  lower_str mid = lower_str t ->
  match_here true (lits t) (mid ++ post) = Some mid.
Proof.
  revert mid; induction t as [|c t IH]; intros mid H.
  - apply lower_str_nil in H. subst. reflexivity.
  - destruct mid as [|ch mid]; simpl in H; [discriminate|].
    injection H as Hc Ht. simpl.
    unfold ci_eqb. rewrite Hc, Ascii.eqb_refl, (IH _ Ht). reflexivity.
Qed.

(** A match at some position makes [re.search] succeed. *)
Lemma search_found (ic : bool) (p : pattern) (pre s m : string) :
  match_here ic p s = Some m ->
  exists m', search ic p (pre ++ s) = Some m'.
Proof.
  intros H. induction pre as [|c pre IH]; simpl.
  - destruct s; simpl; rewrite H; eauto.
  - destruct (match_here ic p (String c (pre ++ s))); eauto.
Qed.

Lemma search_sound (ic : bool) (p : pattern) (s m : string) :
  search ic p s = Some m ->
  exists pre s2 m2, s = (pre ++ s2)%string /\ match_here ic p s2 = Some m2.
Proof.
  revert m. induction s as [|c s IH]; intros m; simpl.
  - destruct (match_here ic p "") as [m'|] eqn:E; [|discriminate].
    intros _. exists ""%string, ""%string, m'. auto.
  - destruct (match_here ic p (String c s)) as [m'|] eqn:E.
    + intros _. exists ""%string, (String c s), m'. auto.
    + intros H. destruct (IH _ H) as (pre & s2 & m2 & -> & Hm).
      exists (String c pre), s2, m2. auto.
Qed.

(** Where a repetition followed by [k] matches, [k] matches some tail. *)
Lemma star_sound (ic : bool) (a : atom) (k : string -> option string)
      (s m : string) :
  star ic a k s = Some m ->
  exists pre s2 m2, s = (pre ++ s2)%string /\ k s2 = Some m2.
Proof.
  revert m. induction s as [|c s IH]; intros m; simpl.
  - intros H. exists ""%string, ""%string, m. auto.
  - destruct (atom_match ic a c).
    + destruct (star ic a k s) as [m'|] eqn:E.
      * intros _. destruct (IH _ eq_refl) as (pre & s2 & m2 & -> & Hk).
        exists (String c pre), s2, m2. auto.
      * intros H. exists ""%string, (String c s), m. auto.
    + intros H. exists ""%string, (String c s), m. auto.
Qed.

(** Where [q ++ p] matches, [p] matches some tail. *)
Lemma match_here_tail (ic : bool) (q p : pattern) :
  forall s m,
    match_here ic (q ++ p) s = Some m ->
    exists pre s2 m2, s = (pre ++ s2)%string /\ match_here ic p s2 = Some m2.
Proof.
  induction q as [|[a|a|a] q IH]; intros s m; simpl.
  - intros H. exists ""%string, s, m. auto.
  - destruct s as [|c s]; [discriminate|].
    destruct (atom_match ic a c); [|discriminate].
    destruct (match_here ic (q ++ p) s) as [m'|] eqn:E; [|discriminate].
    intros _. destruct (IH _ _ E) as (pre & s2 & m2 & -> & Hm).
    exists (String c pre), s2, m2. auto.
  - intros H. apply star_sound in H.
    destruct H as (pre & s2 & m2 & -> & Hk).
    destruct (IH _ _ Hk) as (pre' & s3 & m3 & -> & Hm).
    exists (pre ++ pre')%string, s3, m3. split; auto.
    now rewrite append_assoc3.
  - destruct s as [|c s]; [discriminate|].
    destruct (atom_match ic a c); [|discriminate].
    destruct (star ic a (match_here ic (q ++ p)) s) as [m'|] eqn:E;
      [|discriminate].
    intros _. apply star_sound in E.
    destruct E as (pre & s2 & m2 & -> & Hk).
    destruct (IH _ _ Hk) as (pre' & s3 & m3 & -> & Hm).
    exists (String c (pre ++ pre')), s3, m3. split; auto.
    simpl. now rewrite append_assoc3.
Qed.

(** Where a pattern that starts with literal characters matches under
    [re.IGNORECASE], the text starts with those characters in some letter
    case. *)
Lemma match_here_lits_sound (t : string) (q : pattern) :
  forall s m,
    match_here true (lits t ++ q) s = Some m ->
    exists mid rest, s = (mid ++ rest)%string /\
                     lower_str mid = lower_str t.
Proof.
  induction t as [|c t IH]; intros s m; simpl.
  - intros _. exists ""%string, s. auto.
  - destruct s as [|ch s]; [discriminate|].
    unfold ci_eqb. destruct (Ascii.eqb_spec (lower c) (lower ch)) as [E|];
      [|discriminate].
    destruct (match_here true (lits t ++ q) s) as [m'|] eqn:M;
      [|discriminate].
    intros _. destruct (IH _ _ M) as (mid & rest & -> & Hl).
    exists (String ch mid), rest. simpl. split; congruence.
Qed.

(** A pattern with the literal text [t] inside can only be found in a
    line that contains [t] in some letter case. *)
Lemma search_lits_inside (q1 q2 : pattern) (t line m : string) :
  search true (q1 ++ lits t ++ q2) line = Some m ->
  exists pre mid post,
    line = (pre ++ mid ++ post)%string /\ lower_str mid = lower_str t.
Proof.
  intros H. apply search_sound in H.
  destruct H as (pre & s2 & m2 & -> & H).
  apply match_here_tail in H. destruct H as (pre' & s3 & m3 & -> & H).
  apply match_here_lits_sound in H. destruct H as (mid & rest & -> & Hl).
  exists (pre ++ pre')%string, mid, rest. split; auto.
  now rewrite append_assoc3.
Qed.

End ReFacts.

(** ** The scan of one source *)

Section ScanFacts.
Import Text Re LogAnalyzer.

Lemma collect_stack_ge (fuel : nat) (lines : list string) :
  forall i stack, i <= fst (collect_stack fuel lines i stack).
Proof.
  induction fuel as [|fuel IH]; intros i stack; simpl; [lia|].
  destruct ((i <? List.length lines) && is_continuation (nth i lines ""));
    simpl; [|lia].
  specialize (IH (i + 1) (stack ++ [strip (nth i lines "")])). lia.
Qed.

(** The two shapes of one turn of the loop: the line is passed over, or
    an entry is appended and the index moves past the line and the
    stack trace read with it. *)
Lemma loop_body_cases (lines : list string) (tid : string) (st : locals) :
  let i := v_i st in
  let line := nth i lines ""%string in
  (line_matches tid line = false /\
   loop_body lines tid st =
     mkLocals (i + 1) (v_logs st) (v_error_count st) (v_warn_count st)
              (v_info_count st))
  \/
  (line_matches tid line = true /\
   exists i' stack,
     i <= i' /\
     (_extract_log_level line <> ERROR -> i' = i /\ stack = []) /\
     (_extract_log_level line = ERROR ->
      collect_stack (List.length lines) lines (i + 1) [] = (i' + 1, stack)) /\
     loop_body lines tid st =
       mkLocals (i' + 1)
         (v_logs st ++
            [mkEntry (i + 1) (_extract_timestamp line)
                     (_extract_log_level line) (strip line) stack None])
         (v_error_count st
            + one_if (level_eqb (_extract_log_level line) ERROR))
         (v_warn_count st
            + one_if (level_eqb (_extract_log_level line) WARN))
         (v_info_count st
            + one_if (level_eqb (_extract_log_level line) INFO))).
Proof.
  intros i line. unfold loop_body. fold i. fold line.
  destruct (line_matches tid line); [right | left; auto].
  split; [reflexivity|].
  destruct (_extract_log_level line) eqn:L.
  - destruct (collect_stack (List.length lines) lines (i + 1) [])
      as [j stk] eqn:C.
    pose proof (collect_stack_ge (List.length lines) lines (i + 1) []) as G.
    rewrite C in G. simpl in G.
    exists (j - 1), stk. split; [lia|]. split; [congruence|].
    split; [intros _; f_equal; lia|].
    simpl. rewrite !Nat.add_0_r. reflexivity.
  - exists i, []. split; [lia|]. split; [auto|]. split; [discriminate|].
    simpl. rewrite !Nat.add_0_r. reflexivity.
  - exists i, []. split; [lia|]. split; [auto|]. split; [discriminate|].
    simpl. rewrite !Nat.add_0_r. reflexivity.
  - exists i, []. split; [lia|]. split; [auto|]. split; [discriminate|].
    simpl. rewrite !Nat.add_0_r. reflexivity.
  - exists i, []. split; [lia|]. split; [auto|]. split; [discriminate|].
    simpl. rewrite !Nat.add_0_r. reflexivity.
Qed.

Lemma loop_body_advances (lines : list string) (tid : string)
      (st : locals) :
  v_i st + 1 <= v_i (loop_body lines tid st).
Proof.
  destruct (loop_body_cases lines tid st)
    as [[_ ->] | [_ (i' & stk & Hi & _ & _ & ->)]]; simpl; lia.
Qed.

(** A property kept by every turn holds when the loop is left. *)
Lemma scan_invariant (P : locals -> Prop) (lines : list string)
      (tid : string) :
  (forall st, P st -> v_i st < List.length lines ->
              P (loop_body lines tid st)) ->
  forall fuel st, P st -> P (scan fuel lines tid st).
Proof.
  intros Hstep. induction fuel as [|fuel IH]; intros st H; simpl; auto.
  destruct (v_i st <? List.length lines) eqn:E; auto.
  apply IH, Hstep; auto. now apply Nat.ltb_lt.
Qed.

(** With one unit of fuel per line the loop is left by its own test:
    the index has reached the end of the lines. *)
Lemma scan_exits (lines : list string) (tid : string) :
  forall fuel st,
    List.length lines <= v_i st + fuel ->
    List.length lines <= v_i (scan fuel lines tid st).
Proof.
  induction fuel as [|fuel IH]; intros st H; simpl; [lia|].
  destruct (v_i st <? List.length lines) eqn:E.
  - apply IH. pose proof (loop_body_advances lines tid st). lia.
  - now apply Nat.ltb_ge.
Qed.

(** Fuel beyond one unit per remaining line changes nothing. *)
Lemma scan_fuel (lines : list string) (tid : string) :
  forall fuel st extra,
    List.length lines <= v_i st + fuel ->
    scan (fuel + extra) lines tid st = scan fuel lines tid st.
Proof.
  induction fuel as [|fuel IH]; intros st extra H; simpl.
  - destruct extra; simpl; auto.
    assert (E : (v_i st <? List.length lines) = false)
      by (apply Nat.ltb_ge; lia).
    now rewrite E.
  - destruct (v_i st <? List.length lines) eqn:E; auto.
    apply IH. pose proof (loop_body_advances lines tid st). lia.
Qed.

Lemma skipn_nth (l : list string) :
  forall i, i < List.length l ->
            skipn i l = nth i l ""%string :: skipn (S i) l.
Proof.
  induction l as [|x l IH]; intros [|i] H; simpl in *; auto; try lia.
  apply IH. lia.
Qed.

(** The inner loop, left by its own test, has read exactly the
    continuation lines that follow, and stands behind them. *)
Lemma collect_stack_spec (lines : list string) :
  forall fuel i stack,
    List.length lines < i + fuel ->
    let run := take_continuation (skipn i lines) in
    collect_stack fuel lines i stack
    = (i + List.length run, stack ++ map strip run).
Proof.
  induction fuel as [|fuel IH]; intros i stack H; cbv zeta.
  - rewrite skipn_all2 by lia. simpl.
    now rewrite Nat.add_0_r, app_nil_r.
  - cbn [collect_stack].
    destruct (i <? List.length lines) eqn:E.
    + apply Nat.ltb_lt in E. rewrite (skipn_nth lines i E).
      cbn [take_continuation andb].
      destruct (is_continuation (nth i lines "")).
      * replace (i + 1) with (S i) by lia.
        rewrite IH by lia. cbv zeta. cbn [List.length map].
        rewrite <- app_assoc. cbn [app]. f_equal. lia.
      * simpl. now rewrite Nat.add_0_r, app_nil_r.
    + apply Nat.ltb_ge in E. rewrite skipn_all2 by lia. simpl.
      now rewrite Nat.add_0_r, app_nil_r.
Qed.

Lemma StronglySorted_snoc {A : Type} (R : A -> A -> Prop)
      (l : list A) (y : A) :
  StronglySorted R l -> Forall (fun x => R x y) l ->
  StronglySorted R (l ++ [y]).
Proof.
  induction 1 as [|x l Hs IH Hx]; intros Hy; simpl.
  - repeat constructor.
  - inversion Hy; subst. constructor; auto.
    apply Forall_app; split; auto.
Qed.

(** The line numbers grow strictly along the entries, and none exceeds
    the index reached. *)
Lemma scan_line_numbers (lines : list string) (tid : string) :
  forall fuel st,
    StronglySorted lt (map line_number (v_logs st)) /\
    Forall (fun e => line_number e <= v_i st) (v_logs st) ->
    let st' := scan fuel lines tid st in
    StronglySorted lt (map line_number (v_logs st')) /\
    Forall (fun e => line_number e <= v_i st') (v_logs st').
Proof.
  intros fuel st H. cbv zeta. revert fuel st H.
  apply (scan_invariant
           (fun st => StronglySorted lt (map line_number (v_logs st)) /\
                      Forall (fun e => line_number e <= v_i st)
                             (v_logs st))).
  intros st [Hs Hb] _.
  destruct (loop_body_cases lines tid st)
    as [[_ ->] | [_ (i' & stk & Hi & _ & _ & ->)]]; simpl.
  - split; auto. eapply Forall_impl; [|exact Hb]. simpl. intros; lia.
  - split.
    + rewrite map_app. simpl. apply StronglySorted_snoc; auto.
      apply Forall_map. eapply Forall_impl; [|exact Hb].
      simpl. intros; lia.
    + apply Forall_app. split.
      * eapply Forall_impl; [|exact Hb]. simpl. intros; lia.
      * repeat constructor. simpl. lia.
Qed.

Lemma count_level_app (lv : log_level) (a b : list log_entry) :
  count_level lv (a ++ b) = count_level lv a + count_level lv b.
Proof. unfold count_level. now rewrite filter_app, length_app. Qed.

(** The three counters are the numbers of entries of their levels. *)
Lemma scan_counts (lines : list string) (tid : string) :
  forall fuel st,
    (v_error_count st = count_level ERROR (v_logs st) /\
     v_warn_count st = count_level WARN (v_logs st) /\
     v_info_count st = count_level INFO (v_logs st)) ->
    let st' := scan fuel lines tid st in
    v_error_count st' = count_level ERROR (v_logs st') /\
    v_warn_count st' = count_level WARN (v_logs st') /\
    v_info_count st' = count_level INFO (v_logs st').
Proof.
  intros fuel st H. cbv zeta. revert fuel st H.
  apply (scan_invariant
           (fun st =>
              v_error_count st = count_level ERROR (v_logs st) /\
              v_warn_count st = count_level WARN (v_logs st) /\
              v_info_count st = count_level INFO (v_logs st))).
  intros st (He & Hw & Hi) _.
  destruct (loop_body_cases lines tid st)
    as [[_ ->] | [_ (i' & stk & _ & _ & _ & ->)]]; simpl; auto.
  rewrite !count_level_app, He, Hw, Hi.
  unfold count_level at 2 4 6. simpl.
  destruct (_extract_log_level (nth (v_i st) lines "")); simpl; auto.
Qed.

End ScanFacts.

(** ** The stable sort *)

Section SortFacts.
Variables (A K : Type) (key : A -> K) (lt : K -> K -> bool).

Lemma insert_by_perm (x : A) (s : list A) :
  Permutation (x :: s) (insert_by key lt x s).
Proof.
  induction s as [|y s IH]; simpl; auto.
  destruct (lt (key y) (key x)); auto.
  eapply perm_trans; [apply perm_swap|]. now apply perm_skip.
Qed.

Lemma sorted_by_perm (l : list A) : Permutation l (sorted_by key lt l).
Proof.
  induction l as [|x l IH]; simpl; auto.
  eapply perm_trans; [apply perm_skip, IH | apply insert_by_perm].
Qed.

Lemma sorted_by_length (l : list A) :
  List.length (sorted_by key lt l) = List.length l.
Proof. symmetry. apply Permutation_length, sorted_by_perm. Qed.

(** Stability: entries that are never smaller than one another stay in
    the order they had. *)
Lemma insert_by_filter (p : A -> bool) (x : A) (s : list A) :
  (forall a b, p a = true -> p b = true -> lt (key a) (key b) = false) ->
  filter p (insert_by key lt x s) = filter p (x :: s).
Proof.
  intros Hp. induction s as [|y s IH]; auto.
  cbn [insert_by]. destruct (lt (key y) (key x)) eqn:E; auto.
  cbn [filter] in *. rewrite IH.
  destruct (p x) eqn:Px, (p y) eqn:Py; auto.
  rewrite (Hp y x Py Px) in E. discriminate.
Qed.

Lemma sorted_by_filter (p : A -> bool) (l : list A) :
  (forall a b, p a = true -> p b = true -> lt (key a) (key b) = false) ->
  filter p (sorted_by key lt l) = filter p l.
Proof.
  intros Hp. induction l as [|x l IH]; auto.
  cbn [sorted_by]. rewrite insert_by_filter by exact Hp.
  cbn [filter]. now rewrite IH.
Qed.

Hypothesis lt_asym : forall a b, lt a b = true -> lt b a = false.
Hypothesis lt_cotrans :
  forall a b c, lt a c = true -> lt a b = true \/ lt b c = true.

Lemma insert_by_sorted (x : A) (s : list A) :
  StronglySorted (not_after key lt) s ->
  StronglySorted (not_after key lt) (insert_by key lt x s).
Proof.
  induction 1 as [|y s Hs IH Hy]; simpl.
  - repeat constructor.
  - destruct (lt (key y) (key x)) eqn:E.
    + constructor; auto.
      eapply Permutation_Forall; [apply insert_by_perm|].
      constructor; auto. now apply lt_asym.
    + constructor; [constructor; auto|].
      constructor; [exact E|].
      eapply Forall_impl; [|exact Hy]. unfold not_after. intros z Hz.
      destruct (lt (key z) (key x)) eqn:Z; auto.
      destruct (lt_cotrans _ (key y) _ Z); congruence.
Qed.

Lemma sorted_by_sorted (l : list A) :
  StronglySorted (not_after key lt) (sorted_by key lt l).
Proof.
  induction l as [|x l IH]; simpl;
    [constructor | now apply insert_by_sorted].
Qed.

(** In a sorted list an element never comes before a smaller one. *)
Lemma sorted_split (s1 s2 s3 : list A) (a b : A) :
  StronglySorted (not_after key lt) (s1 ++ a :: s2 ++ b :: s3) ->
  not_after key lt a b.
Proof.
  induction s1 as [|x s1 IH]; simpl; intros H; inversion H; subst; auto.
  match goal with F : Forall _ (s2 ++ b :: s3) |- _ =>
    rewrite Forall_app in F; destruct F as [_ F]; now inversion F end.
Qed.

End SortFacts.

(** ** The order of [datetime] *)

Section DatetimeFacts.
Import Datetime.
Local Open Scope Z_scope.

Lemma lex_ltb_asym (a : list Z) :
  forall b, lex_ltb a b = true -> lex_ltb b a = false.
Proof.
  induction a as [|x a IH]; intros [|y b]; simpl; auto; try discriminate.
  destruct (x <? y) eqn:E1, (y <? x) eqn:E2; auto; try discriminate.
  apply Z.ltb_lt in E1. apply Z.ltb_lt in E2. lia.
Qed.

Lemma lex_ltb_cotrans (a : list Z) :
  forall b c, lex_ltb a c = true ->
              lex_ltb a b = true \/ lex_ltb b c = true.
Proof.
  induction a as [|x a IH]; intros [|y b] [|z c]; simpl; auto;
    try discriminate.
  destruct (x <? z) eqn:XZ, (z <? x) eqn:ZX, (x <? y) eqn:XY,
           (y <? x) eqn:YX, (y <? z) eqn:YZ, (z <? y) eqn:ZY;
    auto; try discriminate;
    rewrite ?Z.ltb_lt, ?Z.ltb_ge in *; try lia.
Qed.

Lemma ltb_asym (a b : datetime) : ltb a b = true -> ltb b a = false.
Proof. apply lex_ltb_asym. Qed.

Lemma ltb_cotrans (a b c : datetime) :
  ltb a c = true -> ltb a b = true \/ ltb b c = true.
Proof. apply lex_ltb_cotrans. Qed.

Lemma ltb_irrefl (a : datetime) : ltb a a = false.
Proof.
  destruct (ltb a a) eqn:E; auto. now rewrite (ltb_asym _ _ E) in E.
Qed.

(** Nothing the constructor accepts is before [datetime.min]. *)
Lemma make_datetime_min (a : fields) (t : datetime) :
  make_datetime a = Some t -> ltb t datetime_min = false.
Proof.
  unfold make_datetime.
  destruct (_ && _) eqn:E; [|discriminate].
  intros H; injection H as <-.
  repeat (apply andb_prop in E; destruct E as [E ?]).
  rewrite ?Z.leb_le in *.
  unfold ltb, datetime_min, as_tuple, lex_ltb; simpl.
  repeat match goal with
         | |- context [?x <? ?y] =>
             let L := fresh in destruct (x <? y) eqn:L;
             rewrite ?Z.ltb_lt, ?Z.ltb_ge in L; try lia
         end; auto.
Qed.

Lemma strptime_min (ts : string) (fmt : list directive) (t : datetime) :
  strptime ts fmt = Some t -> ltb t datetime_min = false.
Proof.
  unfold strptime. destruct (run fmt ts no_fields) as [[a rest]|];
    [|discriminate].
  destruct (String.eqb rest ""); [apply make_datetime_min | discriminate].
Qed.

End DatetimeFacts.

(** ** Entries and the lines they come from *)

Section EntryFacts.
Import Text Re LogAnalyzer.

Lemma scan_from_line (lines : list string) (tid : string) :
  forall fuel st,
    Forall (from_line lines tid) (v_logs st) ->
    Forall (from_line lines tid) (v_logs (scan fuel lines tid st)).
Proof.
  apply (scan_invariant
           (fun st => Forall (from_line lines tid) (v_logs st))).
  intros st H Hlt.
  destruct (loop_body_cases lines tid st)
    as [[_ ->] | [Hm (i' & stk & _ & _ & _ & ->)]]; simpl; auto.
  apply Forall_app. split; auto.
  constructor; [|constructor].
  unfold from_line; simpl. rewrite Nat.add_sub.
  repeat split; auto; lia.
Qed.

Lemma scan_next_line (lines : list string) (tid : string) :
  forall fuel st,
    next_line_kept lines tid st ->
    next_line_kept lines tid (scan fuel lines tid st).
Proof.
  apply (scan_invariant (next_line_kept lines tid)).
  intros st H Hlt.
  destruct (loop_body_cases lines tid st)
    as [[Hm ->] | [Hm (i' & stk & Hi & Hne & _ & ->)]];
    intros e He Hl; simpl in *.
  - destruct (H e He Hl) as (Hs & Hb & Hn).
    split; [exact Hs|]. split; [lia|]. intros Hlt' Hmatch.
    destruct (Nat.eq_dec (line_number e) (v_i st)) as [E|E].
    + rewrite E in Hmatch. congruence.
    + apply Hn; auto. lia.
  - apply in_app_or in He. destruct He as [He | [<- | []]].
    + destruct (H e He Hl) as (Hs & Hb & Hn).
      split; [exact Hs|]. split; [lia|]. intros Hlt' Hmatch.
      destruct (Nat.eq_dec (line_number e) (v_i st)) as [E|E].
      * eexists. split; [apply in_or_app; right; left; reflexivity|].
        simpl. rewrite E. auto.
      * destruct (Hn ltac:(lia) Hmatch) as (e' & He' & R).
        exists e'. split; auto. apply in_or_app. now left.
    + simpl in *. destruct (Hne Hl) as [-> ->].
      split; [reflexivity|]. split; [lia|]. intros; lia.
Qed.

(** An ERROR entry carries the continuation lines that follow its line,
    stripped, in order. *)
Lemma scan_error_stack (lines : list string) (tid : string) :
  forall fuel st,
    Forall (fun e => level e = ERROR ->
                     stack_trace e
                     = map strip (take_continuation
                                    (skipn (line_number e) lines)))
           (v_logs st) ->
    Forall (fun e => level e = ERROR ->
                     stack_trace e
                     = map strip (take_continuation
                                    (skipn (line_number e) lines)))
           (v_logs (scan fuel lines tid st)).
Proof.
  apply (scan_invariant
           (fun st =>
              Forall (fun e => level e = ERROR ->
                               stack_trace e
                               = map strip (take_continuation
                                              (skipn (line_number e) lines)))
                     (v_logs st))).
  intros st H Hlt.
  destruct (loop_body_cases lines tid st)
    as [[_ ->] | [_ (i' & stk & _ & _ & Herr & ->)]]; simpl; auto.
  apply Forall_app. split; auto.
  constructor; [|constructor]. simpl. intros HE.
  specialize (Herr HE).
  rewrite collect_stack_spec in Herr by lia. cbv zeta in Herr.
  injection Herr as _ <-. reflexivity.
Qed.

End EntryFacts.

(** ** The result of one source, the result of a directory *)

Section ResultFacts.
Import Text Re Datetime LogAnalyzer.
Variable fs : filesystem.
Variable tid : string.

Lemma parse_failed (f : string) :
  fs f = None ->
  _parse_trace_logs fs f tid = mkResult tid (FilePath f) None 0 0 0 0 [].
Proof. intros H. unfold _parse_trace_logs. now rewrite H. Qed.

Lemma parse_counts (f : string) :
  let r := _parse_trace_logs fs f tid in
  error_count r = count_level ERROR (logs r) /\
  warn_count r = count_level WARN (logs r) /\
  info_count r = count_level INFO (logs r) /\
  total_logs r = List.length (logs r).
Proof.
  unfold _parse_trace_logs. destruct (fs f) as [text|]; simpl.
  - pose proof (scan_counts (readlines text) tid
                  (List.length (readlines text)) (mkLocals 0 [] 0 0 0)
                  (conj eq_refl (conj eq_refl eq_refl))) as H.
    cbv zeta in H. tauto.
  - auto.
Qed.

Lemma count_level_tagged (lv : log_level) (name : string)
      (l : list log_entry) :
  count_level lv (map (with_source_file name) l) = count_level lv l.
Proof.
  unfold count_level. induction l as [|e l IH]; simpl; auto.
  destruct (level_eqb (level e) lv); simpl; auto.
Qed.

Lemma count_level_perm (lv : log_level) (l l' : list log_entry) :
  Permutation l l' -> count_level lv l = count_level lv l'.
Proof.
  unfold count_level.
  induction 1 as [|x l l' _ IH|x y l|l l' l'' _ IH1 _ IH2]; simpl; auto.
  - destruct (level_eqb (level x) lv); simpl; auto.
  - destruct (level_eqb (level x) lv), (level_eqb (level y) lv);
      simpl; auto.
  - congruence.
Qed.

(** A turn of the loop over the files, without its test: a file with
    no entry adds nothing either way. *)
Lemma add_file_eq (acc : totals) (f : string) :
  let r := _parse_trace_logs fs f tid in
  add_file fs tid acc f =
    mkTotals (all_logs acc ++ tagged fs tid f)
             (t_error_count acc + error_count r)
             (t_warn_count acc + warn_count r)
             (t_info_count acc + info_count r)
             (t_source_files acc ++ (if contributes fs tid f then [f] else [])).
Proof.
  intros r. unfold add_file, tagged, contributes. fold r.
  destruct (parse_counts f) as (He & Hw & Hi & _). fold r in He, Hw, Hi.
  rewrite He, Hw, Hi.
  destruct (logs r) eqn:L; [|reflexivity].
  unfold count_level; simpl. rewrite !Nat.add_0_r, !app_nil_r.
  now destruct acc.
Qed.

Lemma fold_add_file (files : list string) :
  forall acc,
    let acc' := fold_left (add_file fs tid) files acc in
    all_logs acc' = all_logs acc ++ flat_map (tagged fs tid) files /\
    t_error_count acc' =
      t_error_count acc
      + list_sum (map (fun f => error_count (_parse_trace_logs fs f tid))
                      files) /\
    t_warn_count acc' =
      t_warn_count acc
      + list_sum (map (fun f => warn_count (_parse_trace_logs fs f tid))
                      files) /\
    t_info_count acc' =
      t_info_count acc
      + list_sum (map (fun f => info_count (_parse_trace_logs fs f tid))
                      files) /\
    t_source_files acc'
    = t_source_files acc ++ filter (contributes fs tid) files.
Proof.
  induction files as [|f files IH]; intros acc; simpl.
  - rewrite !app_nil_r, !Nat.add_0_r. auto.
  - specialize (IH (add_file fs tid acc f)). cbv zeta in IH.
    destruct IH as (H1 & H2 & H3 & H4 & H5).
    rewrite H1, H2, H3, H4, H5, add_file_eq. simpl.
    rewrite <- !app_assoc, !Nat.add_assoc.
    repeat split; auto.
    destruct (contributes fs tid f); reflexivity.
Qed.

End ResultFacts.


(* ================================================================== *)
(** * The claims *)

Import Text Re Datetime LogAnalyzer.

Lemma line_matches_raw (tid pre mid post : string) :
  lower_str mid = lower_str tid ->
  line_matches tid (pre ++ mid ++ post) = true.
Proof.
  intros H. unfold line_matches. apply existsb_exists.
  exists (escape tid). split.
  - unfold trace_patterns. simpl. tauto.
  - destruct (search_found true (escape tid) pre (mid ++ post) mid
                (match_here_lits tid mid post H)) as [m ->].
    reflexivity.
Qed.

Lemma line_matches_bracket (tid pre mid post : string) :
  lower_str mid = lower_str ("[" ++ tid ++ "]") ->
  line_matches tid (pre ++ mid ++ post) = true.
Proof.
  intros H. unfold line_matches. apply existsb_exists.
  exists (LogAnalyzer.sep "[" ++ escape tid ++ LogAnalyzer.sep "]"). split.
  - unfold trace_patterns. simpl. tauto.
  - replace (LogAnalyzer.sep "[" ++ escape tid ++ LogAnalyzer.sep "]")
      with (lits ("[" ++ tid ++ "]"))
      by (unfold escape; simpl; now rewrite lits_app).
    destruct (search_found true _ pre (mid ++ post) mid
                (match_here_lits _ mid post H)) as [m ->].
    reflexivity.
Qed.

(** The match test is the test for the identifier, in any letter case,
    anywhere in the line: each of the six patterns has it inside, and the
    last is the identifier alone. *)
Lemma line_matches_iff (tid line : string) :
  line_matches tid line = true
  <-> exists pre mid post,
        line = (pre ++ mid ++ post)%string /\
        lower_str mid = lower_str tid.
Proof.
  split.
  - unfold line_matches. rewrite existsb_exists. intros (p & Hin & Hf).
    destruct (search true p line) as [m|] eqn:E; [|discriminate].
    assert (K : forall name : string,
               keyed name tid
               = (lits name ++ [One (OneOf ["="; ":"]%char); Many0 Space])
                   ++ lits tid ++ []).
    { intros name. unfold keyed, escape.
      now rewrite app_nil_r, <- app_assoc. }
    unfold trace_patterns in Hin. cbn [In] in Hin.
    destruct Hin as [<- | [<- | [<- | [<- | [<- | [<- | []]]]]]].
    + rewrite K in E. eapply search_lits_inside; exact E.
    + rewrite K in E. eapply search_lits_inside; exact E.
    + apply (search_lits_inside (LogAnalyzer.sep "[")
               (LogAnalyzer.sep "]") tid line m). exact E.
    + rewrite K in E. eapply search_lits_inside; exact E.
    + rewrite K in E. eapply search_lits_inside; exact E.
    + apply (search_lits_inside [] [] tid line m). simpl.
      now rewrite app_nil_r.
  - intros (pre & mid & post & -> & H). now apply line_matches_raw.
Qed.

(** C1.  The scenario: one source with the four lines, trace id [req-42].
    Extraction gives the INFO, ERROR and WARN entries in line order; the
    merge of that single source gives exactly three entries in the order
    09:59:59 WARN, 10:00:00 INFO, 10:00:05 ERROR, and the ERROR entry
    carries the stack trace [at com.foo.Bar.baz]. *)
Theorem C1_scenario_merged_in_time_order :
  forall path : string,
    let fs := Samples.holding (Samples.unlines Samples.scenario) in
    let merged := _parse_trace_logs_from_directory fs [path] "req-42" in
    total_logs merged = 3 /\
    map (fun e => (line_number e, timestamp e, level e, content e,
                   stack_trace e)) (logs merged)
    = [ (4, "2024-01-01 09:59:59", WARN,
         "2024-01-01 09:59:59 WARN [req-42] before", []);
        (1, "2024-01-01 10:00:00", INFO,
         "2024-01-01 10:00:00 INFO [req-42] start", []);
        (2, "2024-01-01 10:00:05", ERROR,
         "2024-01-01 10:00:05 ERROR [req-42] boom",
         ["at com.foo.Bar.baz"]) ]%string /\
    map line_number (logs (_parse_trace_logs fs path "req-42")) = [1; 2; 4].
Proof.
  intros path. cbv zeta. repeat split; vm_compute; reflexivity.
Qed.

(** C2 (as the code has it).  For the trace id [req-42] the match test
    accepts exactly the lines that contain the identifier, in any letter
    case, anywhere: so it accepts every line that contains [[req-42]] in
    any letter case, and it also accepts a line in which the identifier
    only occurs inside the longer token [req-429]. *)
Theorem C2_match_accepts_identifier_anywhere :
  forall pre mid post : string,
    (lower_str mid = "[req-42]"%string ->
     line_matches "req-42" (pre ++ mid ++ post) = true) /\
    (lower_str mid = "req-42"%string ->
     line_matches "req-42" (pre ++ mid ++ post) = true) /\
    line_matches "req-42" (pre ++ "req-429" ++ post) = true /\
    (forall line : string,
       line_matches "req-42" line = true <->
       exists pre' mid' post',
         line = (pre' ++ mid' ++ post')%string /\
         lower_str mid' = "req-42"%string).
Proof.
  intros pre mid post. split; [|split; [|split]].
  - intros H. now apply line_matches_bracket.
  - intros H. now apply line_matches_raw.
  - apply (line_matches_raw "req-42" pre "req-42" ("9" ++ post)).
    reflexivity.
  - intros line. apply (line_matches_iff "req-42" line).
Qed.

(** C2 at two lines: the bracketed identifier in upper case, and the
    bare identifier in mixed case. *)
Lemma C2_witness :
  line_matches "req-42" ("10:00 INFO " ++ "[REQ-42]" ++ " done") = true /\
  line_matches "req-42" ("10:00 INFO id=" ++ "Req-42" ++ " done") = true.
Proof.
  split.
  - exact (proj1 (C2_match_accepts_identifier_anywhere
                    "10:00 INFO " "[REQ-42]" " done") eq_refl).
  - exact (proj1 (proj2 (C2_match_accepts_identifier_anywhere
                           "10:00 INFO id=" "Req-42" " done")) eq_refl).
Defined.

(** C2 as stated fails: a line that contains [req-429], and on which none
    of the five delimited patterns matches, still yields an entry. *)
Lemma C2_counterexample :
  ~ (forall line : string,
       (exists pre post, line = (pre ++ "req-429" ++ post)%string) ->
       existsb (fun p => found (search true p line))
               (firstn 5 (trace_patterns "req-42")) = false ->
       logs (_parse_trace_logs (Samples.holding line) "app.log" "req-42")
       = []).
Proof.
  intros H.
  specialize (H "GET /orders req-429 done"%string
                (ex_intro _ "GET /orders "%string
                   (ex_intro _ " done"%string eq_refl))
                eq_refl).
  vm_compute in H. discriminate H.
Qed.

(** C8.  The entries of one source have strictly increasing line numbers,
    also across the stack-trace lines an ERROR entry took with it. *)
Theorem C8_line_numbers_strictly_increase :
  forall (fs : filesystem) (f tid : string),
    StronglySorted lt (map line_number (logs (_parse_trace_logs fs f tid))).
Proof.
  intros fs f tid. unfold _parse_trace_logs.
  destruct (fs f) as [text|]; simpl; [|constructor].
  apply (scan_line_numbers (readlines text) tid
           (List.length (readlines text)) (mkLocals 0 [] 0 0 0)).
  simpl. split; constructor.
Qed.

Lemma count_level_flat_map (lv : log_level) (fs : filesystem)
      (tid : string) (files : list string) :
  count_level lv (flat_map (tagged fs tid) files)
  = list_sum (map (fun f => count_level lv
                              (logs (_parse_trace_logs fs f tid))) files).
Proof.
  induction files as [|f files IH]; simpl; auto.
  rewrite count_level_app, IH. unfold tagged.
  now rewrite count_level_tagged.
Qed.

(** The merged list is the sorted concatenation, in the order of the
    files, of the entries of each file. *)
Lemma directory_logs (fs : filesystem) (files : list string)
      (tid : string) :
  logs (_parse_trace_logs_from_directory fs files tid)
  = _sort_logs_by_timestamp (flat_map (tagged fs tid) files).
Proof.
  unfold _parse_trace_logs_from_directory. simpl.
  destruct (fold_add_file fs tid files (mkTotals [] 0 0 0 [])) as (H & _).
  now rewrite H.
Qed.

(** C5.  Merging two sources loses and duplicates nothing: the merged
    list is a rearrangement of the entries of A followed by those of B,
    its length is the sum of the two lengths, and each counter of the
    merged result is the sum of the counters of the two sources. *)
Theorem C5_merge_adds_lengths_and_counts :
  forall (fs : filesystem) (A B tid : string),
    let a := _parse_trace_logs fs A tid in
    let b := _parse_trace_logs fs B tid in
    let m := _parse_trace_logs_from_directory fs [A; B] tid in
    List.length (logs m) = List.length (logs a) + List.length (logs b) /\
    Permutation (tagged fs tid A ++ tagged fs tid B) (logs m) /\
    total_logs m = total_logs a + total_logs b /\
    error_count m = error_count a + error_count b /\
    warn_count m = warn_count a + warn_count b /\
    info_count m = info_count a + info_count b.
Proof.
  intros fs A B tid a b m.
  assert (P : Permutation (tagged fs tid A ++ tagged fs tid B) (logs m)).
  { unfold m. rewrite directory_logs. simpl. rewrite app_nil_r.
    apply sorted_by_perm. }
  assert (L : List.length (logs m)
              = List.length (logs a) + List.length (logs b)).
  { rewrite <- (Permutation_length P), length_app.
    unfold tagged. now rewrite !length_map. }
  destruct (parse_counts fs tid A) as (_ & _ & _ & Ta).
  destruct (parse_counts fs tid B) as (_ & _ & _ & Tb).
  fold a in Ta. fold b in Tb.
  split; [exact L|]. split; [exact P|]. split.
  - rewrite Ta, Tb, <- L. reflexivity.
  - unfold m, _parse_trace_logs_from_directory. simpl.
    destruct (fold_add_file fs tid [A; B] (mkTotals [] 0 0 0 []))
      as (_ & He & Hw & Hi & _).
    simpl in He, Hw, Hi. fold a b in He, Hw, Hi.
    rewrite He, Hw, Hi. repeat split; lia.
Qed.

(** C7.  A source that cannot be read gives an empty entry list and zero
    counts; in a directory scan it changes nothing in the entries, the
    counts and the list of contributing files, and the other sources are
    scanned as without it. *)
Theorem C7_read_failure_is_isolated :
  forall (fs : filesystem) (bad tid : string),
    fs bad = None ->
    (let r := _parse_trace_logs fs bad tid in
     logs r = [] /\ total_logs r = 0 /\ error_count r = 0 /\
     warn_count r = 0 /\ info_count r = 0) /\
    (forall before after : list string,
       let d := _parse_trace_logs_from_directory fs
                  (before ++ bad :: after) tid in
       let d' := _parse_trace_logs_from_directory fs
                   (before ++ after) tid in
       logs d = logs d' /\ total_logs d = total_logs d' /\
       error_count d = error_count d' /\ warn_count d = warn_count d' /\
       info_count d = info_count d' /\ source_files d = source_files d').
Proof.
  intros fs bad tid H. split.
  - rewrite (parse_failed fs tid bad H). simpl. auto.
  - intros before after.
    unfold _parse_trace_logs_from_directory.
    rewrite !fold_left_app. cbn [fold_left].
    assert (E : forall acc, add_file fs tid acc bad = acc).
    { intros acc. unfold add_file.
      now rewrite (parse_failed fs tid bad H). }
    rewrite E. simpl. auto 10.
Qed.

(** C7 at a directory of three files whose second cannot be read. *)
Lemma C7_witness :
  let fs := Samples.unreadable "gone.log"
              (Samples.unlines Samples.scenario) in
  logs (_parse_trace_logs fs "gone.log" "req-42") = [] /\
  logs (_parse_trace_logs_from_directory fs
          (["a.log"] ++ "gone.log" :: ["b.log"]) "req-42")
  = logs (_parse_trace_logs_from_directory fs
            (["a.log"] ++ ["b.log"]) "req-42").
Proof.
  pose proof (C7_read_failure_is_isolated
                (Samples.unreadable "gone.log"
                   (Samples.unlines Samples.scenario))
                "gone.log" "req-42" eq_refl) as [H1 H2].
  split.
  - exact (proj1 H1).
  - exact (proj1 (H2 ["a.log"%string] ["b.log"%string])).
Defined.

Lemma length_by_level (l : list log_entry) :
  List.length l
  = count_level ERROR l + count_level WARN l + count_level INFO l
    + count_level DEBUG l + count_level UNKNOWN l.
Proof.
  unfold count_level. induction l as [|e l IH]; simpl; auto.
  destruct (level e); simpl; lia.
Qed.

(** C10.  In the result of one source and in the result of the directory
    merge, the ERROR, WARN and INFO counters are the numbers of entries of
    those levels in [logs], and [total_logs] is the length of [logs];
    DEBUG and UNKNOWN entries are in [logs], counted in [total_logs] and
    in none of the three counters. *)
Theorem C10_counts_agree_with_logs :
  forall (fs : filesystem) (tid : string),
    (forall f : string,
       let r := _parse_trace_logs fs f tid in
       error_count r = count_level ERROR (logs r) /\
       warn_count r = count_level WARN (logs r) /\
       info_count r = count_level INFO (logs r) /\
       total_logs r = List.length (logs r) /\
       total_logs r = error_count r + warn_count r + info_count r
                      + count_level DEBUG (logs r)
                      + count_level UNKNOWN (logs r)) /\
    (forall files : list string,
       let r := _parse_trace_logs_from_directory fs files tid in
       error_count r = count_level ERROR (logs r) /\
       warn_count r = count_level WARN (logs r) /\
       info_count r = count_level INFO (logs r) /\
       total_logs r = List.length (logs r) /\
       total_logs r = error_count r + warn_count r + info_count r
                      + count_level DEBUG (logs r)
                      + count_level UNKNOWN (logs r)).
Proof.
  intros fs tid.
  assert (D : forall files : list string,
             let r := _parse_trace_logs_from_directory fs files tid in
             error_count r = count_level ERROR (logs r) /\
             warn_count r = count_level WARN (logs r) /\
             info_count r = count_level INFO (logs r) /\
             total_logs r = List.length (logs r)).
  { intros files r.
    assert (C : forall lv,
               count_level lv (logs r)
               = list_sum (map (fun f => count_level lv
                                  (logs (_parse_trace_logs fs f tid)))
                               files)).
    { intros lv. unfold r. rewrite directory_logs.
      rewrite <- count_level_flat_map.
      symmetry. apply count_level_perm, sorted_by_perm. }
    rewrite !C. unfold r, _parse_trace_logs_from_directory. simpl.
    destruct (fold_add_file fs tid files (mkTotals [] 0 0 0 []))
      as (_ & He & Hw & Hi & _).
    simpl in He, Hw, Hi. rewrite He, Hw, Hi.
    repeat split; f_equal; apply map_ext; intros f; apply parse_counts. }
  split.
  - intros f r. destruct (parse_counts fs tid f) as (He & Hw & Hi & Ht).
    fold r in He, Hw, Hi, Ht. repeat split; auto.
    rewrite Ht, He, Hw, Hi. apply length_by_level.
  - intros files r. destruct (D files) as (He & Hw & Hi & Ht).
    fold r in He, Hw, Hi, Ht. repeat split; auto.
    rewrite Ht, He, Hw, Hi. apply length_by_level.
Qed.

Lemma parse_from_line (fs : filesystem) (f tid text : string) :
  fs f = Some text ->
  Forall (from_line (readlines text) tid)
         (logs (_parse_trace_logs fs f tid)).
Proof.
  intros H. unfold _parse_trace_logs. rewrite H. simpl.
  apply scan_from_line. constructor.
Qed.

(** C9.  The level of a line is found with exact upper-case keywords, in
    the order ERROR, WARN, INFO, DEBUG, and is UNKNOWN when none of them
    occurs; the level of every entry is the level found so on its matched
    line.  The identifier is matched in any letter case, the keywords are
    not: a line with [[REQ-42]] and only a lower-case [error] is matched
    and has level UNKNOWN. *)
Theorem C9_level_keywords_are_case_sensitive :
  (forall line : string,
     let has := fun kw : string =>
                  exists pre post, line = (pre ++ kw ++ post)%string in
     (_extract_log_level line = ERROR <-> has "ERROR"%string) /\
     (_extract_log_level line = WARN <->
        ~ has "ERROR"%string /\ has "WARN"%string) /\
     (_extract_log_level line = INFO <->
        ~ has "ERROR"%string /\ ~ has "WARN"%string /\ has "INFO"%string) /\
     (_extract_log_level line = DEBUG <->
        ~ has "ERROR"%string /\ ~ has "WARN"%string /\
        ~ has "INFO"%string /\ has "DEBUG"%string) /\
     (_extract_log_level line = UNKNOWN <->
        ~ has "ERROR"%string /\ ~ has "WARN"%string /\
        ~ has "INFO"%string /\ ~ has "DEBUG"%string)) /\
  (forall (fs : filesystem) (f tid : string),
     Forall (fun e => exists line,
                 line_matches tid line = true /\
                 level e = _extract_log_level line /\
                 content e = strip line)
            (logs (_parse_trace_logs fs f tid))) /\
  (line_matches "req-42" "[REQ-42] error: disk full" = true /\
   _extract_log_level "[REQ-42] error: disk full" = UNKNOWN).
Proof.
  split; [|split].
  - intros line has. unfold has, _extract_log_level.
    rewrite <- !contains_iff.
    destruct (contains "ERROR" line), (contains "WARN" line),
      (contains "INFO" line), (contains "DEBUG" line);
      repeat split; intros; try discriminate; try reflexivity;
      intuition congruence.
  - intros fs f tid. destruct (fs f) as [text|] eqn:E.
    + eapply Forall_impl; [|exact (parse_from_line fs f tid text E)].
      intros e (_ & Hm & _ & Hl & Hc & _). eauto.
    + rewrite (parse_failed fs tid f E). constructor.
  - split; vm_compute; reflexivity.
Qed.

(** C9 at a line with a lower-case [error] only, and at a line with
    a lower-case [warn] and an upper-case [ERROR]. *)
Lemma C9_witness :
  _extract_log_level "[REQ-42] error: disk full" = UNKNOWN /\
  _extract_log_level "10:00 warn then ERROR" = ERROR.
Proof.
  destruct C9_level_keywords_are_case_sensitive as (H & _ & _).
  split.
  - apply (H "[REQ-42] error: disk full"%string).
    rewrite <- !contains_false_iff. repeat split; reflexivity.
  - apply (H "10:00 warn then ERROR"%string).
    exists "10:00 warn then "%string, ""%string. reflexivity.
Defined.

Lemma try_formats_min (ts : string) (fmts : list (list directive))
      (t : datetime) :
  try_formats ts fmts = Some t -> Datetime.ltb t datetime_min = false.
Proof.
  induction fmts as [|fmt fmts IH]; simpl; [discriminate|].
  destruct (strptime _ fmt) as [t'|] eqn:E; auto.
  intros H; injection H as <-. eapply strptime_min; eauto.
Qed.

Lemma parsed_key (e : log_entry) (t : datetime) :
  timestampParsed e = Some t -> parse_timestamp e = t.
Proof.
  unfold timestampParsed, parse_timestamp.
  destruct (String.eqb (timestamp e) "Unknown"); [discriminate|].
  now intros ->.
Qed.

Lemma absent_key (e : log_entry) :
  timestampParsed e = None -> parse_timestamp e = datetime_min.
Proof.
  unfold timestampParsed, parse_timestamp.
  destruct (String.eqb (timestamp e) "Unknown"); [reflexivity|].
  now intros ->.
Qed.

(** No sort key is before [datetime.min]. *)
Lemma parse_timestamp_min (e : log_entry) :
  Datetime.ltb (parse_timestamp e) datetime_min = false.
Proof.
  destruct (timestampParsed e) as [t|] eqn:E.
  - rewrite (parsed_key e t E). unfold timestampParsed in E.
    destruct (String.eqb (timestamp e) "Unknown"); [discriminate|].
    eapply try_formats_min; eauto.
  - rewrite (absent_key e E). apply ltb_irrefl.
Qed.

Lemma StronglySorted_weaken {A : Type} (R R' : A -> A -> Prop)
      (P : A -> Prop) (l : list A) :
  (forall a b, P a -> P b -> R a b -> R' a b) ->
  Forall P l -> StronglySorted R l -> StronglySorted R' l.
Proof.
  intros HR HP HS. induction HS as [|x l HS IH Hx]; constructor.
  - apply IH. now inversion HP.
  - inversion HP as [|? ? Px Pl]; subst.
    rewrite Forall_forall in *. intros y Hy. apply HR; auto.
Qed.

Lemma sort_logs_sorted (l : list log_entry) :
  StronglySorted (not_after parse_timestamp Datetime.ltb)
                 (_sort_logs_by_timestamp l).
Proof.
  apply sorted_by_sorted; [exact ltb_asym | exact ltb_cotrans].
Qed.

(** C3 (as the code has it).  The merge is the stable sort, by the key
    that stands [datetime.min] for an absent timestamp, of the entries
    concatenated in the order of the files: a rearrangement of them in
    non-decreasing key order, entries of equal key in concatenation order.
    So the entries without a timestamp keep their concatenation order, no
    entry whose parsed timestamp is later than [datetime.min] comes before
    an entry without one, and when every entry has a parsed timestamp the
    merged list is non-decreasing by it. *)
Theorem C3_merge_is_a_stable_sort_by_key :
  (forall (fs : filesystem) (files : list string) (tid : string),
     logs (_parse_trace_logs_from_directory fs files tid)
     = _sort_logs_by_timestamp (flat_map (tagged fs tid) files)) /\
  (forall l : list log_entry,
     let s := _sort_logs_by_timestamp l in
     Permutation l s /\
     StronglySorted
       (fun a b => Datetime.leb (parse_timestamp a) (parse_timestamp b)
                   = true) s /\
     (forall p : log_entry -> bool,
        (forall a b, p a = true -> p b = true ->
                     parse_timestamp a = parse_timestamp b) ->
        filter p s = filter p l) /\
     filter is_absent s = filter is_absent l /\
     (forall s1 a s2 b s3 t,
        s = s1 ++ a :: s2 ++ b :: s3 ->
        timestampParsed a = Some t ->
        Datetime.ltb datetime_min t = true ->
        timestampParsed b <> None) /\
     ((forall e, In e l -> timestampParsed e <> None) ->
      StronglySorted
        (fun a b => exists ta tb,
             timestampParsed a = Some ta /\ timestampParsed b = Some tb /\
             Datetime.leb ta tb = true) s)).
Proof.
  split; [exact directory_logs|].
  intros l s.
  assert (HP : Permutation l s) by apply sorted_by_perm.
  assert (HS := sort_logs_sorted l). fold s in HS.
  assert (HF : forall p : log_entry -> bool,
             (forall a b, p a = true -> p b = true ->
                          parse_timestamp a = parse_timestamp b) ->
             filter p s = filter p l).
  { intros p Hp. apply sorted_by_filter. intros a b Ha Hb.
    rewrite (Hp a b Ha Hb). apply ltb_irrefl. }
  split; [exact HP|]. split; [|split; [exact HF|split; [|split]]].
  - eapply StronglySorted_weaken with (P := fun _ => True);
      [| apply Forall_forall; auto | exact HS].
    unfold not_after, Datetime.leb. intros a b _ _ ->. reflexivity.
  - apply HF. unfold is_absent. intros a b Ha Hb.
    destruct (timestampParsed a) eqn:Ea; [discriminate|].
    destruct (timestampParsed b) eqn:Eb; [discriminate|].
    now rewrite !absent_key.
  - intros s1 a s2 b s3 t Hs Ha Hlt Hb.
    rewrite Hs in HS. apply sorted_split in HS. unfold not_after in HS.
    rewrite (parsed_key a t Ha), (absent_key b Hb) in HS. congruence.
  - intros Hall.
    eapply StronglySorted_weaken
      with (P := fun e => timestampParsed e <> None); [| |exact HS].
    + unfold not_after, Datetime.leb. intros a b Ha Hb Hab.
      destruct (timestampParsed a) as [ta|] eqn:Ea; [|congruence].
      destruct (timestampParsed b) as [tb|] eqn:Eb; [|congruence].
      exists ta, tb. rewrite (parsed_key a ta Ea), (parsed_key b tb Eb) in Hab.
      rewrite Hab. auto.
    + apply Forall_forall. intros e He. apply Hall.
      eapply Permutation_in; [symmetry; exact HP | exact He].
Qed.

(** C3 at the three entries of the scenario, all with a parsed
    timestamp. *)
Lemma C3_witness :
  let l := tagged (Samples.holding (Samples.unlines Samples.scenario))
                  "req-42" "app.log" in
  filter is_absent (_sort_logs_by_timestamp l) = filter is_absent l /\
  StronglySorted
    (fun a b => exists ta tb,
         timestampParsed a = Some ta /\ timestampParsed b = Some tb /\
         Datetime.leb ta tb = true)
    (_sort_logs_by_timestamp l).
Proof.
  intros l.
  destruct (proj2 C3_merge_is_a_stable_sort_by_key l)
    as (_ & _ & _ & Habsent & _ & Hall).
  split; [exact Habsent|].
  apply Hall. intros e He. vm_compute in He.
  destruct He as [<- | [<- | [<- | []]]]; vm_compute; discriminate.
Defined.

(** C3 as stated fails: a line stamped [0001-01-01 00:00:00] has a parsed
    timestamp, equal to [datetime.min]; the stable sort leaves it before a
    later line that has no timestamp. *)
Lemma C3_counterexample :
  ~ (forall (fs : filesystem) (files : list string) (tid : string)
            (s1 : list log_entry) (a : log_entry) (s2 : list log_entry)
            (b : log_entry) (s3 : list log_entry),
       logs (_parse_trace_logs_from_directory fs files tid)
       = s1 ++ a :: s2 ++ b :: s3 ->
       timestampParsed b = None ->
       timestampParsed a = None).
Proof.
  intros H.
  specialize (H (Samples.holding (Samples.unlines Samples.first_instant))
                ["app.log"%string] "req-42"%string []
                (mkEntry 1 "0001-01-01 00:00:00" INFO
                         "0001-01-01 00:00:00 INFO [req-42] first" []
                         (Some "app.log"%string))
                []
                (mkEntry 2 "Unknown" INFO "INFO [req-42] second" []
                         (Some "app.log"%string))
                []).
  assert (E : timestampParsed
                (mkEntry 1 "0001-01-01 00:00:00" INFO
                         "0001-01-01 00:00:00 INFO [req-42] first" []
                         (Some "app.log"%string))
              = Some datetime_min) by (vm_compute; reflexivity).
  rewrite H in E; [discriminate E| |]; vm_compute; reflexivity.
Qed.

(** C6 (as the code has it).  For every matched line: when no timestamp
    pattern occurs in the line the raw timestamp is ["Unknown"]; an entry
    whose raw timestamp is ["Unknown"] has no parsed timestamp; and an
    entry without a parsed timestamp, whether its raw text is ["Unknown"]
    or a text that no format reads as a date and time, has the sort key
    [datetime.min], which is not after the key of any entry. *)
Theorem C6_absent_timestamp_sorts_as_minimum :
  forall (fs : filesystem) (f tid text : string) (e : log_entry),
    fs f = Some text ->
    In e (logs (_parse_trace_logs fs f tid)) ->
    let line := nth (line_number e - 1) (readlines text) ""%string in
    timestamp e = _extract_timestamp line /\
    (first_search timestamp_patterns line = None ->
     timestamp e = "Unknown"%string) /\
    (timestamp e = "Unknown"%string -> timestampParsed e = None) /\
    (timestampParsed e = None ->
     parse_timestamp e = datetime_min /\
     forall e' : log_entry,
       Datetime.leb (parse_timestamp e) (parse_timestamp e') = true).
Proof.
  intros fs f tid text e Hf He line.
  pose proof (parse_from_line fs f tid text Hf) as F.
  rewrite Forall_forall in F.
  destruct (F e He) as (_ & _ & Ht & _). fold line in Ht.
  split; [exact Ht|]. split; [|split].
  - intros Hn. rewrite Ht. unfold _extract_timestamp. now rewrite Hn.
  - intros Hu. unfold timestampParsed. now rewrite Hu.
  - intros Ha. split; [now apply absent_key|].
    intros e'. unfold Datetime.leb.
    rewrite (absent_key e Ha), parse_timestamp_min. reflexivity.
Qed.

(** C6 at the entry of a line without a timestamp. *)
Lemma C6_witness :
  let fs := Samples.holding (Samples.unlines Samples.first_instant) in
  let e := mkEntry 2 "Unknown" INFO "INFO [req-42] second" [] None in
  timestampParsed e = None /\
  forall e' : log_entry,
    Datetime.leb (parse_timestamp e) (parse_timestamp e') = true.
Proof.
  intros fs e.
  assert (He : In e (logs (_parse_trace_logs fs "app.log" "req-42")))
    by (vm_compute; right; left; reflexivity).
  destruct (C6_absent_timestamp_sorts_as_minimum
              fs "app.log" "req-42" _ e eq_refl He)
    as (_ & Hu & Hp & Hk).
  assert (Ha : timestampParsed e = None)
    by (apply Hp, Hu; vm_compute; reflexivity).
  split; [exact Ha | exact (proj2 (Hk Ha))].
Defined.

(** C6 as stated fails: the line stamped [2024-02-30 10:00:00] gives an
    entry whose raw timestamp is not ["Unknown"] and that has no parsed
    timestamp. *)
Lemma C6_counterexample :
  ~ (forall (fs : filesystem) (f tid : string) (e : log_entry),
       In e (logs (_parse_trace_logs fs f tid)) ->
       timestamp e <> "Unknown"%string ->
       timestampParsed e <> None).
Proof.
  intros H.
  apply (H (Samples.holding (Samples.unlines Samples.no_such_day))
           "app.log"%string "req-42"%string
           (mkEntry 1 "2024-02-30 10:00:00" ERROR
                    "2024-02-30 10:00:00 ERROR [req-42] boom" [] None)).
  - vm_compute. left. reflexivity.
  - vm_compute. discriminate.
  - vm_compute. reflexivity.
Qed.

(** C4.  The continuation lines (tab, four spaces or [at ] at the start)
    that follow a matched line are collected into the stack trace of its
    entry only when the level of the entry is ERROR: an ERROR entry
    carries the run of continuation lines after its line, and an entry of
    another level has an empty stack trace; the line that follows such an
    entry, indented or not, is not taken into it and, when it matches the
    identifier itself, has an entry of its own. *)
Theorem C4_no_stack_trace_unless_error :
  forall (fs : filesystem) (f tid text : string) (e : log_entry),
    fs f = Some text ->
    In e (logs (_parse_trace_logs fs f tid)) ->
    (level e = ERROR ->
     stack_trace e
     = map strip (take_continuation
                    (skipn (line_number e) (readlines text)))) /\
    (level e <> ERROR ->
     stack_trace e = [] /\
     forall next : string,
       nth_error (readlines text) (line_number e) = Some next ->
       line_matches tid next = true ->
       exists e' : log_entry,
         In e' (logs (_parse_trace_logs fs f tid)) /\
         line_number e' = line_number e + 1 /\
         content e' = strip next /\
         level e' = _extract_log_level next).
Proof.
  intros fs f tid text e Hf. unfold _parse_trace_logs. rewrite Hf. simpl.
  set (lines := readlines text).
  set (st := scan (List.length lines) lines tid (mkLocals 0 [] 0 0 0)).
  intros He. split.
  - assert (S : Forall
                  (fun e => level e = ERROR ->
                            stack_trace e
                            = map strip (take_continuation
                                           (skipn (line_number e) lines)))
                  (v_logs st)).
    { apply scan_error_stack. constructor. }
    rewrite Forall_forall in S. exact (S e He).
  - intros Hl.
    assert (K : next_line_kept lines tid st).
    { apply scan_next_line. intros x []. }
    assert (X : List.length lines <= v_i st).
    { apply scan_exits. simpl. lia. }
    destruct (K e He Hl) as (Hs & _ & Hn).
    split; [exact Hs|]. intros next Hnth Hm.
    assert (Hlt : line_number e < List.length lines).
    { apply nth_error_Some. congruence. }
    rewrite (nth_error_nth _ _ ""%string Hnth) in Hn.
    apply Hn; [lia | exact Hm].
Qed.

(** C4 at a WARN line followed by an indented line that carries the
    identifier: the indented line has its own entry. *)
Lemma C4_witness :
  let fs := Samples.holding
              (Samples.unlines Samples.warning_with_detail) in
  exists e' : log_entry,
    In e' (logs (_parse_trace_logs fs "app.log" "req-42")) /\
    line_number e' = 2 /\
    content e' = "detail for [req-42]"%string.
Proof.
  intros fs.
  set (e := mkEntry 1 "2024-01-01 10:00:00" WARN
                    "2024-01-01 10:00:00 WARN [req-42] slow call" [] None).
  assert (He : In e (logs (_parse_trace_logs fs "app.log" "req-42")))
    by (vm_compute; left; reflexivity).
  assert (Hl : level e <> ERROR) by discriminate.
  destruct (C4_no_stack_trace_unless_error
              fs "app.log" "req-42" _ e eq_refl He) as [_ Hn].
  destruct (Hn Hl) as [_ Hnext].
  destruct (Hnext _ eq_refl eq_refl) as (e' & Hin & Hnum & Hc & _).
  exists e'. repeat split; [exact Hin | exact Hnum | exact Hc].
Defined.


(* ================================================================== *)
(** * Further properties of the trace scan and the merge *)

(** ** What a match is made of *)

Lemma star_prefix (ic : bool) (a : atom) (k : string -> option string) :
  (forall s m, k s = Some m -> exists post, s = (m ++ post)%string) ->
  forall s m, star ic a k s = Some m ->
              exists post, s = (m ++ post)%string.
Proof.
  intros Hk. induction s as [|c s IH]; intros m; simpl.
  - apply Hk.
  - destruct (atom_match ic a c); [|apply Hk].
    destruct (star ic a k s) as [m0|] eqn:E; [|apply Hk].
    intros H; injection H as <-.
    destruct (IH _ eq_refl) as [post ->]. now exists post.
Qed.

(** The text of a match is the start of the text matched against. *)
Lemma match_here_prefix (ic : bool) (p : pattern) :
  forall s m, match_here ic p s = Some m ->
              exists post, s = (m ++ post)%string.
Proof.
  induction p as [|[a|a|a] p IH]; intros s m; simpl.
  - intros H; injection H as <-. now exists s.
  - destruct s as [|c s]; [discriminate|].
    destruct (atom_match ic a c); [|discriminate].
    destruct (match_here ic p s) as [m0|] eqn:E; [|discriminate].
    intros H; injection H as <-.
    destruct (IH _ _ E) as [post ->]. now exists post.
  - apply star_prefix, IH.
  - destruct s as [|c s]; [discriminate|].
    destruct (atom_match ic a c); [|discriminate].
    destruct (star ic a (match_here ic p) s) as [m0|] eqn:E;
      [|discriminate].
    intros H; injection H as <-.
    destruct (star_prefix ic a _ IH _ _ E) as [post ->]. now exists post.
Qed.

(** What [re.search] returns stands in the text. *)
Lemma search_substring (ic : bool) (p : pattern) :
  forall s m, search ic p s = Some m ->
              exists pre post, s = (pre ++ m ++ post)%string.
Proof.
  induction s as [|c s IH]; intros m; simpl.
  - destruct (match_here ic p "") as [m0|] eqn:E; [|discriminate].
    intros H; injection H as <-.
    destruct (match_here_prefix ic p _ _ E) as [post H].
    now exists ""%string, post.
  - destruct (match_here ic p (String c s)) as [m0|] eqn:E.
    + intros H; injection H as <-.
      destruct (match_here_prefix ic p _ _ E) as [post H].
      now exists ""%string, post.
    + intros H. destruct (IH _ H) as (pre & post & ->).
      now exists (String c pre), post.
Qed.

Lemma first_search_in (ps : list pattern) (line m : string) :
  first_search ps line = Some m ->
  exists p, In p ps /\ search false p line = Some m.
Proof.
  induction ps as [|p ps IH]; simpl; [discriminate|].
  destruct (search false p line) as [m0|] eqn:E.
  - intros H; injection H as <-. eauto.
  - intros H. destruct (IH H) as (q & Hq & Hs). eauto.
Qed.

(** What [re.search] returns is what the pattern matches at some place
    of the text. *)
Lemma search_at (ic : bool) (p : pattern) :
  forall s m, search ic p s = Some m ->
              exists pre s2, s = (pre ++ s2)%string /\
                             match_here ic p s2 = Some m.
Proof.
  induction s as [|c s IH]; intros m; simpl.
  - destruct (match_here ic p "") as [m0|] eqn:E; [|discriminate].
    intros H; injection H as <-. now exists ""%string, ""%string.
  - destruct (match_here ic p (String c s)) as [m0|] eqn:E.
    + intros H; injection H as <-. now exists ""%string, (String c s).
    + intros H. destruct (IH _ H) as (pre & s2 & -> & Hm).
      now exists (String c pre), s2.
Qed.

(** A match of a pattern that starts with [\d] starts with a digit. *)
Lemma search_digit_first (p : pattern) (s m : string) :
  search false (One Digit :: p) s = Some m ->
  exists c m', m = String c m' /\ is_digit c = true.
Proof.
  intros H. apply search_at in H. destruct H as (_ & s2 & _ & H).
  simpl in H. destruct s2 as [|c s2]; [discriminate|].
  destruct (is_digit c) eqn:D; [|discriminate].
  destruct (match_here false p s2) as [m0|]; [|discriminate].
  injection H as <-. eauto.
Qed.

Lemma extract_timestamp_found (line m : string) :
  first_search timestamp_patterns line = Some m ->
  m <> "Unknown"%string /\
  exists pre post, line = (pre ++ m ++ post)%string.
Proof.
  intros H. destruct (first_search_in _ _ _ H) as (p & Hp & Hs).
  split.
  - assert (D : exists c m', m = String c m' /\ is_digit c = true).
    { simpl in Hp. destruct Hp as [<- | [<- | [<- | []]]];
        eapply search_digit_first; exact Hs. }
    destruct D as (c & m' & -> & D). intros E. injection E as -> _.
    vm_compute in D. discriminate D.
  - eapply search_substring; eauto.
Qed.

(** X1.  [_extract_timestamp] returns ["Unknown"] exactly when none of the
    three patterns occurs in the line; otherwise it returns a piece of the
    line itself, unchanged, so the sentinel is never mistaken for a
    match. *)
Theorem X1_timestamp_is_unknown_or_verbatim :
  forall line : string,
    (_extract_timestamp line = "Unknown"%string <->
     first_search timestamp_patterns line = None) /\
    (_extract_timestamp line <> "Unknown"%string ->
     exists pre post,
       line = (pre ++ _extract_timestamp line ++ post)%string).
Proof.
  intros line. unfold _extract_timestamp.
  destruct (first_search timestamp_patterns line) as [m|] eqn:E.
  - destruct (extract_timestamp_found line m E) as [Hn Hs].
    split; [split; [contradiction | discriminate] | auto].
  - split; [tauto | congruence].
Qed.

(** X1 at a line with a timestamp in the middle. *)
Lemma X1_witness :
  exists pre post,
    "[main] 2024-03-05 07:08:09 started"%string
    = (pre ++ "2024-03-05 07:08:09" ++ post)%string.
Proof.
  apply (proj2 (X1_timestamp_is_unknown_or_verbatim
                  "[main] 2024-03-05 07:08:09 started")).
  vm_compute. discriminate.
Defined.

(** ** Which lines have entries *)

Lemma take_continuation_nth (l : list string) :
  forall j, j < List.length (take_continuation l) ->
            is_continuation (nth j l ""%string) = true.
Proof.
  induction l as [|x l IH]; intros j; simpl; [lia|].
  destruct (is_continuation x) eqn:E; simpl; [|lia].
  destruct j as [|j]; auto. intros H. apply IH. lia.
Qed.

Lemma nth_skipn_add (l : list string) :
  forall n j, nth j (skipn n l) ""%string = nth (n + j) l ""%string.
Proof.
  induction l as [|x l IH]; intros [|n] j; simpl; auto.
  now destruct j.
Qed.

(** The lines a turn of the loop passes beyond the matched line are the
    lines of the stack trace it collected, all continuation lines. *)
Lemma consumed_extent (lines : list string) (i i' : nat)
      (stk : list string) (lvl : log_level) :
  (lvl <> ERROR -> i' = i /\ stk = []) ->
  (lvl = ERROR ->
   collect_stack (List.length lines) lines (i + 1) [] = (i' + 1, stk)) ->
  i' = i + List.length stk /\
  forall k, i < k -> k <= i' ->
            is_continuation (nth k lines ""%string) = true.
Proof.
  intros Hne Herr.
  assert (D : lvl = ERROR \/ lvl <> ERROR)
    by (destruct lvl; auto; right; discriminate).
  destruct D as [D|D].
  - specialize (Herr D). rewrite collect_stack_spec in Herr by lia.
    cbv zeta in Herr. injection Herr as Hi Hs. subst stk.
    rewrite length_map. split; [lia|]. intros k Hk1 Hk2.
    replace k with ((i + 1) + (k - (i + 1))) by lia.
    rewrite <- nth_skipn_add. apply take_continuation_nth. lia.
  - destruct (Hne D) as [-> ->]. simpl. split; [lia|]. intros; lia.
Qed.

Lemma scan_extents (lines : list string) (tid : string) :
  forall fuel st,
    (StronglySorted
       (fun a b => line_number a + List.length (stack_trace a)
                   < line_number b) (v_logs st) /\
     Forall (fun e => line_number e + List.length (stack_trace e)
                      <= v_i st) (v_logs st)) ->
    let st' := scan fuel lines tid st in
    StronglySorted
      (fun a b => line_number a + List.length (stack_trace a)
                  < line_number b) (v_logs st') /\
    Forall (fun e => line_number e + List.length (stack_trace e)
                     <= v_i st') (v_logs st').
Proof.
  intros fuel st H. cbv zeta. revert fuel st H.
  apply (scan_invariant
           (fun st =>
              StronglySorted
                (fun a b => line_number a + List.length (stack_trace a)
                            < line_number b) (v_logs st) /\
              Forall (fun e => line_number e + List.length (stack_trace e)
                               <= v_i st) (v_logs st))).
  intros st [Hs Hb] _.
  destruct (loop_body_cases lines tid st)
    as [[_ ->] | [_ (i' & stk & Hi & Hne & Herr & ->)]]; simpl.
  - split; auto. eapply Forall_impl; [|exact Hb]. simpl. intros; lia.
  - destruct (consumed_extent lines (v_i st) i' stk _ Hne Herr) as [E _].
    split.
    + apply StronglySorted_snoc; auto.
      eapply Forall_impl; [|exact Hb]. simpl. intros; lia.
    + apply Forall_app. split.
      * eapply Forall_impl; [|exact Hb]. simpl. intros; lia.
      * repeat constructor. simpl. lia.
Qed.

Lemma scan_complete (lines : list string) (tid : string) :
  forall fuel st,
    (forall k, k < v_i st ->
       line_matches tid (nth k lines ""%string) = true ->
       is_continuation (nth k lines ""%string) = false ->
       exists e, In e (v_logs st) /\ line_number e = k + 1) ->
    let st' := scan fuel lines tid st in
    forall k, k < v_i st' ->
      line_matches tid (nth k lines ""%string) = true ->
      is_continuation (nth k lines ""%string) = false ->
      exists e, In e (v_logs st') /\ line_number e = k + 1.
Proof.
  intros fuel st H. cbv zeta. revert fuel st H.
  apply (scan_invariant
           (fun st =>
              forall k, k < v_i st ->
                line_matches tid (nth k lines ""%string) = true ->
                is_continuation (nth k lines ""%string) = false ->
                exists e, In e (v_logs st) /\ line_number e = k + 1)).
  intros st H _.
  destruct (loop_body_cases lines tid st)
    as [[Hm ->] | [Hm (i' & stk & Hi & Hne & Herr & ->)]];
    simpl; intros k Hk Hmk Hck.
  - destruct (Nat.eq_dec k (v_i st)) as [->|N]; [congruence|].
    apply H; auto. lia.
  - destruct (consumed_extent lines (v_i st) i' stk _ Hne Herr) as [_ C].
    destruct (Nat.lt_trichotomy k (v_i st)) as [L | [-> | G]].
    + destruct (H k L Hmk Hck) as (e & He & Hn).
      exists e. split; auto. apply in_or_app. now left.
    + eexists. split; [apply in_or_app; right; left; reflexivity|].
      reflexivity.
    + rewrite (C k G) in Hck by lia. discriminate.
Qed.

(** X2.  In the result of one source the entries, each with the lines of
    its stack trace, occupy separate stretches of the file in file order:
    the line number of an entry is beyond the number of every earlier
    entry plus the length of that entry's stack trace.  So a line taken
    into a stack trace is never an entry of its own. *)
Theorem X2_stack_trace_lines_are_not_entries :
  forall (fs : filesystem) (f tid : string),
    StronglySorted
      (fun a b => line_number a + List.length (stack_trace a)
                  < line_number b)
      (logs (_parse_trace_logs fs f tid)).
Proof.
  intros fs f tid. unfold _parse_trace_logs.
  destruct (fs f) as [text|]; simpl; [|constructor].
  apply (scan_extents (readlines text) tid
           (List.length (readlines text)) (mkLocals 0 [] 0 0 0)).
  simpl. split; constructor.
Qed.

(** X3.  A line of the source that matches the identifier and is not a
    continuation line always has an entry, with its line number and its
    stripped text: only continuation lines can be passed over. *)
Theorem X3_matching_lines_have_entries :
  forall (fs : filesystem) (f tid text line : string) (k : nat),
    fs f = Some text ->
    nth_error (readlines text) k = Some line ->
    line_matches tid line = true ->
    is_continuation line = false ->
    exists e : log_entry,
      In e (logs (_parse_trace_logs fs f tid)) /\
      line_number e = k + 1 /\
      content e = strip line /\
      level e = _extract_log_level line /\
      timestamp e = _extract_timestamp line.
Proof.
  intros fs f tid text line k Hf Hnth Hm Hc.
  pose proof (parse_from_line fs f tid text Hf) as F.
  rewrite Forall_forall in F.
  unfold _parse_trace_logs in *. rewrite Hf in *. simpl in *.
  set (lines := readlines text) in *.
  set (st := scan (List.length lines) lines tid (mkLocals 0 [] 0 0 0)) in *.
  assert (Hk : k < List.length lines) by (apply nth_error_Some; congruence).
  assert (X : List.length lines <= v_i st) by (apply scan_exits; simpl; lia).
  assert (N : nth k lines ""%string = line) by now apply nth_error_nth.
  destruct (scan_complete lines tid (List.length lines)
              (mkLocals 0 [] 0 0 0)) with (k := k) as (e & He & Hn).
  - simpl. intros; lia.
  - fold st. lia.
  - now rewrite N.
  - now rewrite N.
  - exists e. split; [exact He|]. split; [exact Hn|].
    destruct (F e He) as (_ & _ & Ht & Hl & Hcn & _).
    rewrite Hn, Nat.add_sub, N in Ht, Hl, Hcn. auto.
Qed.

(** X3 at the WARN line of the scenario, the fourth line of the file. *)
Lemma X3_witness :
  exists e : log_entry,
    In e (logs (_parse_trace_logs
                  (Samples.holding (Samples.unlines Samples.scenario))
                  "app.log" "req-42")) /\
    line_number e = 4 /\ level e = WARN.
Proof.
  destruct (X3_matching_lines_have_entries
              (Samples.holding (Samples.unlines Samples.scenario))
              "app.log" "req-42" _ _ 3 eq_refl eq_refl eq_refl eq_refl)
    as (e & He & Hn & _ & Hl & _).
  exists e. split; [exact He|]. split; [exact Hn | exact Hl].
Defined.

(** X4.  No entry is invented: every entry of a source carries the number
    of a line of that source that matches the identifier, its timestamp,
    level and content are those of that line, and it has no source file
    name; a source that cannot be read has no entry. *)
Theorem X4_entries_come_from_matching_lines :
  forall (fs : filesystem) (f tid : string),
    match fs f with
    | Some text =>
        Forall
          (fun e =>
             exists line,
               nth_error (readlines text) (line_number e - 1) = Some line /\
               1 <= line_number e /\
               line_matches tid line = true /\
               timestamp e = _extract_timestamp line /\
               level e = _extract_log_level line /\
               content e = strip line /\
               source_file e = None)
          (logs (_parse_trace_logs fs f tid))
    | None => logs (_parse_trace_logs fs f tid) = []
    end.
Proof.
  intros fs f tid. destruct (fs f) as [text|] eqn:Hf.
  - eapply Forall_impl; [|exact (parse_from_line fs f tid text Hf)].
    intros e ([H1 H2] & Hm & Ht & Hl & Hc & Hs).
    exists (nth (line_number e - 1) (readlines text) ""%string).
    split; [apply nth_error_nth'; lia|]. auto 10.
  - now rewrite (parse_failed fs tid f Hf).
Qed.

(** ** The directory scan: tags, contributing files, nothing found *)

Lemma directory_source_files (fs : filesystem) (files : list string)
      (tid : string) :
  source_files (_parse_trace_logs_from_directory fs files tid)
  = Some (filter (contributes fs tid) files).
Proof.
  unfold _parse_trace_logs_from_directory. simpl.
  destruct (fold_add_file fs tid files (mkTotals [] 0 0 0 []))
    as (_ & _ & _ & _ & H).
  now rewrite H.
Qed.

(** X5.  The result of a directory scan lists as source files exactly the
    files that have at least one entry, in the order they were given; and
    every merged entry is an entry of one of those files, unchanged but
    for the base name of the file put under [source_file]. *)
Theorem X5_merged_entries_are_tagged_file_entries :
  forall (fs : filesystem) (files : list string) (tid : string),
    let r := _parse_trace_logs_from_directory fs files tid in
    source_files r = Some (filter (contributes fs tid) files) /\
    Forall
      (fun e =>
         exists f e0,
           In f (filter (contributes fs tid) files) /\
           In e0 (logs (_parse_trace_logs fs f tid)) /\
           source_file e = Some (basename f) /\
           line_number e = line_number e0 /\
           timestamp e = timestamp e0 /\
           level e = level e0 /\
           content e = content e0 /\
           stack_trace e = stack_trace e0)
      (logs r).
Proof.
  intros fs files tid r. split; [apply directory_source_files|].
  apply Forall_forall. intros e He. unfold r in He.
  rewrite directory_logs in He.
  apply (Permutation_in _ (Permutation_sym (sorted_by_perm _ _ _ _ _))) in He.
  apply in_flat_map in He. destruct He as (f & Hf & He).
  unfold tagged in He. apply in_map_iff in He.
  destruct He as (e0 & <- & He0).
  exists f, e0. split; [|simpl; auto 10].
  apply filter_In. split; [exact Hf|].
  unfold contributes. destruct (logs (_parse_trace_logs fs f tid));
    [destruct He0 | reflexivity].
Qed.

Lemma fold_nothing (fs : filesystem) (tid : string) (files : list string) :
  (forall f, In f files -> logs (_parse_trace_logs fs f tid) = []) ->
  forall acc, fold_left (add_file fs tid) files acc = acc.
Proof.
  induction files as [|f files IH]; intros H acc; simpl; auto.
  rewrite <- (IH (fun g Hg => H g (or_intror Hg)) acc) at 2.
  f_equal. unfold add_file. now rewrite (H f (or_introl eq_refl)).
Qed.

(** X6.  A directory scan finds nothing exactly when no file has an
    entry, in particular for an empty list of files; the result then has
    no entry, zero for every count, and an empty list of source files,
    and nothing is raised. *)
Theorem X6_nothing_found_gives_empty_result :
  forall (fs : filesystem) (files : list string) (tid : string),
    let r := _parse_trace_logs_from_directory fs files tid in
    (logs r = [] <->
     forall f, In f files -> logs (_parse_trace_logs fs f tid) = []) /\
    (logs r = [] ->
     total_logs r = 0 /\ error_count r = 0 /\ warn_count r = 0 /\
     info_count r = 0 /\ source_files r = Some []).
Proof.
  intros fs files tid r.
  assert (A : logs r = [] ->
              forall f, In f files ->
                        logs (_parse_trace_logs fs f tid) = []).
  { unfold r. rewrite directory_logs. intros E f Hf.
    pose proof (sorted_by_perm _ _ parse_timestamp Datetime.ltb
                  (flat_map (tagged fs tid) files)) as P.
    unfold _sort_logs_by_timestamp in E. rewrite E in P.
    apply Permutation_sym, Permutation_nil in P.
    destruct (logs (_parse_trace_logs fs f tid)) as [|e l] eqn:L; auto.
    assert (I : In (with_source_file (basename f) e)
                   (flat_map (tagged fs tid) files)).
    { apply in_flat_map. exists f. split; auto.
      unfold tagged. rewrite L. now left. }
    rewrite P in I. destruct I. }
  assert (B : (forall f, In f files ->
                         logs (_parse_trace_logs fs f tid) = []) ->
              r = mkResult tid (DirectoryScan (List.length files))
                           (Some []) 0 0 0 0 []).
  { intros H. unfold r, _parse_trace_logs_from_directory.
    now rewrite (fold_nothing fs tid files H). }
  split; [split; [exact A | intros H; now rewrite (B H)]|].
  intros E. rewrite (B (A E)). simpl. auto.
Qed.

(** X6 at an empty list of files. *)
Lemma X6_witness :
  source_files
    (_parse_trace_logs_from_directory (Samples.holding "") [] "req-42")
  = Some [].
Proof.
  apply (proj2 (X6_nothing_found_gives_empty_result
                  (Samples.holding "") [] "req-42")).
  reflexivity.
Defined.

(** ** Sorting what is sorted *)

Lemma sorted_by_fixed {A K : Type} (key : A -> K) (lt : K -> K -> bool)
      (l : list A) :
  StronglySorted (not_after key lt) l -> sorted_by key lt l = l.
Proof.
  induction 1 as [|x l Hs IH Hx]; simpl; auto.
  rewrite IH. destruct l as [|y l]; simpl; auto.
  inversion Hx as [|? ? Hy _]; subst. unfold not_after in Hy.
  now rewrite Hy.
Qed.

(** X7.  Entries that already stand in non-decreasing key order are
    returned by [_sort_logs_by_timestamp] as they are; so sorting a merged
    list again changes nothing. *)
Theorem X7_sorting_sorted_entries_changes_nothing :
  forall l : list log_entry,
    (StronglySorted
       (fun a b => Datetime.leb (parse_timestamp a) (parse_timestamp b)
                   = true) l ->
     _sort_logs_by_timestamp l = l) /\
    _sort_logs_by_timestamp (_sort_logs_by_timestamp l)
    = _sort_logs_by_timestamp l.
Proof.
  intros l. split.
  - intros H. apply sorted_by_fixed.
    eapply StronglySorted_weaken with (P := fun _ => True);
      [| apply Forall_forall; auto | exact H].
    unfold not_after, Datetime.leb. intros a b _ _ Hab.
    now destruct (Datetime.ltb (parse_timestamp b) (parse_timestamp a)).
  - apply sorted_by_fixed, sort_logs_sorted.
Qed.

(** X7 at the entries of the scenario put in time order by hand. *)
Lemma X7_witness :
  let l := [ mkEntry 4 "2024-01-01 09:59:59" WARN "w" [] None;
             mkEntry 1 "2024-01-01 10:00:00" INFO "i" [] None;
             mkEntry 2 "2024-01-01 10:00:05" ERROR "e" [] None ] in
  _sort_logs_by_timestamp l = l.
Proof.
  intros l. apply (proj1 (X7_sorting_sorted_entries_changes_nothing l)).
  repeat constructor.
Defined.

(** ** Letter case in the match test *)






(** ** What [strptime] reads, and the fraction of a second *)

Lemma chars_app (a b : string) :
  list_ascii_of_string (a ++ b)
  = list_ascii_of_string a ++ list_ascii_of_string b.
Proof. induction a as [|c a IH]; simpl; congruence. Qed.

Lemma has_char_in (c : ascii) (s : string) :
  has_char c s = true <-> In c (list_ascii_of_string s).
Proof.
  unfold has_char. induction s as [|x s IH]; cbn [contains].
  - simpl. split; [discriminate | tauto].
  - rewrite orb_true_iff, IH. cbn [String.prefix list_ascii_of_string In].
    destruct (ascii_dec c x) as [->|N].
    + destruct s; simpl; tauto.
    + split; [intros [H|H]; [discriminate | auto]
             | intros [H|H]; [congruence | auto]].
Qed.

Lemma split_head_no_sep (sep : ascii) (s : string) :
  ~ In sep (list_ascii_of_string (split_head sep s)).
Proof.
  induction s as [|c s IH]; simpl; auto.
  destruct (Ascii.eqb_spec c sep); simpl; [tauto|].
  intros [H|H]; auto.
Qed.

Lemma first_alt_some {A B : Type} (f : A -> option B) (l : list A)
      (r : B) :
  first_alt f l = Some r -> exists a, In a l /\ f a = Some r.
Proof.
  induction l as [|a l IH]; simpl; [discriminate|].
  destruct (f a) as [r'|] eqn:E.
  - intros H; injection H as <-. eauto.
  - intros H. destruct (IH H) as (b & Hb & Hf). eauto.
Qed.

Lemma ws_star_some {A : Type} (k : string -> option A) (r : A) :
  forall s, ws_star k s = Some r ->
            exists pre s2, s = (pre ++ s2)%string /\
                           Forall (fun c => is_space c = true)
                                  (list_ascii_of_string pre) /\
                           k s2 = Some r.
Proof.
  induction s as [|c s IH]; simpl.
  - intros H. exists ""%string, ""%string. simpl. auto.
  - destruct (is_space c) eqn:S.
    + destruct (ws_star k s) as [r'|] eqn:E.
      * intros H; injection H as <-.
        destruct (IH eq_refl) as (pre & s2 & -> & Hp & Hk).
        exists (String c pre), s2. simpl. auto.
      * intros H. exists ""%string, (String c s). simpl. auto.
    + intros H. exists ""%string, (String c s). simpl. auto.
Qed.

Lemma match_alt_some (alt : list crange) :
  forall s txt rest,
    match_alt alt s = Some (txt, rest) ->
    s = (txt ++ rest)%string /\
    Forall (fun c => exists r, In r alt /\ in_range r c = true)
           (list_ascii_of_string txt).
Proof.
  induction alt as [|r alt IH]; intros s txt rest; simpl.
  - intros H; injection H as <- <-. simpl. auto.
  - destruct s as [|c s]; [discriminate|].
    destruct (in_range r c) eqn:R; [|discriminate].
    destruct (match_alt alt s) as [[t rest']|] eqn:E; [|discriminate].
    intros H; injection H as <- <-.
    destruct (IH _ _ _ E) as [-> F]. split; [reflexivity|].
    simpl. constructor; [eauto|].
    eapply Forall_impl; [|exact F]. intros x (r' & Hr & Hx). eauto.
Qed.

(** The groups of the directives read digits, or a blank. *)
Lemma alts_chars (k : field) (alt : list crange) (r : crange) (c : ascii) :
  In alt (alts k) -> In r alt -> in_range r c = true ->
  is_digit c || Ascii.eqb c " " = true.
Proof.
  intros Ha Hr Hc.
  assert (D : forall a b, a <= 9 -> b <= 9 -> in_range (dg a b) c = true ->
                          is_digit c = true).
  { unfold in_range, dg, is_digit. cbn [fst snd]. intros a b Ha' Hb'.
    rewrite !andb_true_iff, !Nat.leb_le. lia. }
  assert (S : in_range sp c = true -> Ascii.eqb c " " = true).
  { unfold in_range, sp. cbn [fst snd].
    rewrite andb_true_iff, !Nat.leb_le. intros [H1 H2].
    apply Ascii.eqb_eq. rewrite <- (ascii_nat_embedding c).
    unfold code in *.
    replace (nat_of_ascii c) with 32 by lia. reflexivity. }
  destruct k; simpl in Ha;
    repeat (destruct Ha as [<- | Ha]; [|]); try contradiction;
    simpl in Hr;
    repeat (destruct Hr as [<- | Hr]; [|]); try contradiction;
    try (rewrite S by exact Hc; apply orb_true_r);
    (erewrite D; [reflexivity | | | exact Hc]; lia).
Qed.

(** What [run] takes from the text: characters its directives accept, and
    for every literal character of the format a character equal to it up
    to letter case. *)
Lemma run_consumed (fmt : list directive) :
  forall s a a' rest,
    run fmt s a = Some (a', rest) ->
    exists m,
      s = (m ++ rest)%string /\
      Forall
        (fun c =>
           existsb (fun d => match d with
                             | DChar x => ci_eqb x c
                             | DWs => is_space c
                             | Dir _ => is_digit c || Ascii.eqb c " "
                             end) fmt = true)
        (list_ascii_of_string m) /\
      (forall x, In (DChar x) fmt ->
                 exists c, In c (list_ascii_of_string m) /\
                           ci_eqb x c = true).
Proof.
  induction fmt as [|d fmt IH]; intros s a a' rest; simpl.
  - intros H; injection H as <- <-. exists ""%string. simpl.
    split; [reflexivity|]. split; [constructor | intros x []].
  - destruct d as [k|x|].
    + intros H. apply first_alt_some in H. destruct H as (alt & Ha & H).
      destruct (match_alt alt s) as [[txt rest']|] eqn:E; [|discriminate].
      destruct (match_alt_some _ _ _ _ E) as [-> F].
      destruct (IH _ _ _ _ H) as (m & -> & Fm & Lm).
      exists (txt ++ m)%string. rewrite append_assoc3, chars_app.
      split; [reflexivity|]. split.
      * apply Forall_app. split.
        -- eapply Forall_impl; [|exact F]. intros c (r & Hr & Hc).
           now rewrite (alts_chars k alt r c Ha Hr Hc).
        -- eapply Forall_impl; [|exact Fm]. intros c Hc.
           rewrite Hc. apply orb_true_r.
      * intros y [Hy|Hy]; [discriminate|].
        destruct (Lm y Hy) as (c & Hc & Hx). exists c. split; auto.
        apply in_or_app. now right.
    + destruct s as [|ch s]; [discriminate|].
      destruct (ci_eqb x ch) eqn:C; [|discriminate].
      intros H. destruct (IH _ _ _ _ H) as (m & -> & Fm & Lm).
      exists (String ch m). split; [reflexivity|]. simpl. split.
      * constructor; [now rewrite C|].
        eapply Forall_impl; [|exact Fm]. intros c Hc.
        rewrite Hc. apply orb_true_r.
      * intros y [Hy|Hy].
        -- injection Hy as <-. exists ch. auto.
        -- destruct (Lm y Hy) as (c & Hc & Hx). exists c. auto.
    + destruct s as [|ch s]; [discriminate|].
      destruct (is_space ch) eqn:S; [|discriminate].
      intros H. apply ws_star_some in H.
      destruct H as (pre & s2 & -> & Fp & H).
      destruct (IH _ _ _ _ H) as (m & -> & Fm & Lm).
      exists (String ch (pre ++ m)). simpl.
      rewrite append_assoc3, chars_app.
      split; [reflexivity|]. split.
      * constructor; [now rewrite S|].
        apply Forall_app. split.
        -- eapply Forall_impl; [|exact Fp]. intros c Hc. now rewrite Hc.
        -- eapply Forall_impl; [|exact Fm]. intros c Hc.
           rewrite Hc. apply orb_true_r.
      * intros y [Hy|Hy]; [discriminate|].
        destruct (Lm y Hy) as (c & Hc & Hx). exists c. split; auto.
        right. apply in_or_app. now right.
Qed.

Lemma ci_dot (c : ascii) : ci_eqb "." c = true -> c = "."%char.
Proof.
  destruct c as [[] [] [] [] [] [] [] []]; vm_compute; intros H;
    first [reflexivity | discriminate H].
Qed.

(** A format with a literal point parses no text without a point. *)
Lemma strptime_needs_point (ts : string) (fmt : list directive) :
  In (DChar ".") fmt ->
  ~ In "."%char (list_ascii_of_string ts) ->
  strptime ts fmt = None.
Proof.
  intros Hin Hno. unfold strptime.
  destruct (run fmt ts no_fields) as [[a rest]|] eqn:E; auto.
  destruct (run_consumed _ _ _ _ _ E) as (m & -> & _ & L).
  destruct (L _ Hin) as (c & Hc & Hx). apply ci_dot in Hx. subst c.
  exfalso. apply Hno. rewrite chars_app. apply in_or_app. now left.
Qed.

Lemma second_format_dead (timestamp : string) :
  strptime
    (if has_char "." timestamp && negb (has_char "T" timestamp)
     then split_head "." timestamp else timestamp)
    (date_ymd ++ [DWs] ++ time_hms ++ [DChar "."; Dir Ff])
  = None.
Proof.
  set (ts := if has_char "." timestamp && negb (has_char "T" timestamp)
             then split_head "." timestamp else timestamp).
  destruct (strptime ts _) as [t|] eqn:E; auto. exfalso.
  unfold strptime in E.
  destruct (run _ ts no_fields) as [[a rest]|] eqn:R; [|discriminate].
  destruct (String.eqb_spec rest ""); [subst rest | discriminate].
  destruct (run_consumed _ _ _ _ _ R) as (m & Hm & F & L).
  rewrite append_empty_r in Hm. subst m.
  assert (P : In "."%char (list_ascii_of_string ts)).
  { destruct (L "."%char) as (c & Hc & Hx).
    - unfold date_ymd, time_hms. simpl. tauto.
    - apply ci_dot in Hx. now subst c. }
  assert (T : ~ In "T"%char (list_ascii_of_string ts)).
  { intros HT. rewrite Forall_forall in F. specialize (F _ HT).
    vm_compute in F. discriminate F. }
  unfold ts in P, T.
  destruct (has_char "." timestamp) eqn:HP,
           (has_char "T" timestamp) eqn:HT; simpl in P, T.
  - apply T. now apply has_char_in.
  - exact (split_head_no_sep _ _ P).
  - apply has_char_in in P. congruence.
  - apply has_char_in in P. congruence.
Qed.

(** X9.  The second format of [parse_timestamp], the one with a blank and
    a fraction, never parses anything: the text given to it has lost its
    fraction when it has no [T], and cannot fit the format when it has
    one.  Leaving that format out of the list changes no result. *)
Theorem X9_format_with_blank_and_fraction_never_parses :
  forall timestamp : string,
    strptime
      (if has_char "." timestamp && negb (has_char "T" timestamp)
       then split_head "." timestamp else timestamp)
      (nth 1 formats [])
    = None /\
    try_formats timestamp formats
    = try_formats timestamp (firstn 1 formats ++ skipn 2 formats).
Proof.
  intros timestamp. split; [apply second_format_dead|].
  unfold formats. cbn [try_formats firstn skipn app].
  rewrite second_format_dead. reflexivity.
Qed.

Lemma star_chars (ic : bool) (a : atom) (k : string -> option string)
      (P : ascii -> Prop) :
  (forall s m, k s = Some m -> Forall P (list_ascii_of_string m)) ->
  (forall c, atom_match ic a c = true -> P c) ->
  forall s m, star ic a k s = Some m -> Forall P (list_ascii_of_string m).
Proof.
  intros Hk Ha. induction s as [|c s IH]; intros m; simpl.
  - apply Hk.
  - destruct (atom_match ic a c) eqn:A; [|apply Hk].
    destruct (star ic a k s) as [m0|] eqn:E; [|apply Hk].
    intros H; injection H as <-. simpl. constructor; auto.
Qed.

(** Every character of a match is accepted by an atom of the pattern. *)
Lemma match_here_chars (ic : bool) (p : pattern) :
  forall s m,
    match_here ic p s = Some m ->
    Forall
      (fun c =>
         existsb (fun it => atom_match ic
                              (match it with
                               | One a | Many0 a | Many1 a => a
                               end) c) p = true)
      (list_ascii_of_string m).
Proof.
  induction p as [|it p IH]; intros s m.
  - simpl. intros H; injection H as <-. constructor.
  - assert (W : forall s0 m0,
               match_here ic p s0 = Some m0 ->
               Forall
                 (fun c =>
                    existsb (fun it => atom_match ic
                                         (match it with
                                          | One a | Many0 a | Many1 a => a
                                          end) c) (it :: p) = true)
                 (list_ascii_of_string m0)).
    { intros s0 m0 H0. eapply Forall_impl; [|exact (IH _ _ H0)].
      intros c Hc. simpl. rewrite Hc. apply orb_true_r. }
    destruct it as [a|a|a]; cbn [match_here].
    + destruct s as [|c s]; [discriminate|].
      destruct (atom_match ic a c) eqn:A; [|discriminate].
      destruct (match_here ic p s) as [m0|] eqn:E; [|discriminate].
      intros H; injection H as <-. simpl. constructor.
      * now rewrite A.
      * exact (W _ _ E).
    + apply star_chars; [exact W|].
      intros c A. simpl. now rewrite A.
    + destruct s as [|c s]; [discriminate|].
      destruct (atom_match ic a c) eqn:A; [|discriminate].
      destruct (star ic a (match_here ic p) s) as [m0|] eqn:E;
        [|discriminate].
      intros H; injection H as <-. simpl. constructor.
      * now rewrite A.
      * revert E. apply star_chars; [exact W|].
        intros c' A'. simpl. now rewrite A'.
Qed.

(** What [_extract_timestamp] returns has no point in it. *)
Lemma extract_no_point (line : string) :
  ~ In "."%char (list_ascii_of_string (_extract_timestamp line)).
Proof.
  unfold _extract_timestamp.
  destruct (first_search timestamp_patterns line) as [m|] eqn:E.
  - destruct (first_search_in _ _ _ E) as (p & Hp & Hs).
    apply search_at in Hs. destruct Hs as (_ & s2 & _ & Hm).
    apply match_here_chars in Hm. rewrite Forall_forall in Hm.
    intros H. specialize (Hm _ H).
    simpl in Hp. destruct Hp as [<- | [<- | [<- | []]]];
      vm_compute in Hm; discriminate Hm.
  - simpl. intuition discriminate.
Qed.

Lemma run_keeps_fraction (fmt : list directive) :
  forallb (fun d => match d with Dir Ff => false | _ => true end) fmt
  = true ->
  forall s a a' rest, run fmt s a = Some (a', rest) -> gf a' = gf a.
Proof.
  induction fmt as [|d fmt IH]; intros Hf s a a' rest; simpl.
  - intros H; injection H as <- _. reflexivity.
  - simpl in Hf. apply andb_prop in Hf. destruct Hf as [Hd Hf].
    destruct d as [k|x|].
    + intros H. apply first_alt_some in H. destruct H as (alt & _ & H).
      destruct (match_alt alt s) as [[txt rest']|]; [|discriminate].
      rewrite (IH Hf _ _ _ _ H). destruct k; try reflexivity.
      discriminate Hd.
    + destruct s as [|ch s]; [discriminate|].
      destruct (ci_eqb x ch); [|discriminate]. apply IH, Hf.
    + destruct s as [|ch s]; [discriminate|].
      destruct (is_space ch); [|discriminate].
      intros H. apply ws_star_some in H.
      destruct H as (_ & s2 & _ & _ & H). exact (IH Hf _ _ _ _ H).
Qed.

Lemma strptime_no_fraction (ts : string) (fmt : list directive)
      (t : datetime) :
  forallb (fun d => match d with Dir Ff => false | _ => true end) fmt
  = true ->
  strptime ts fmt = Some t -> microsecond t = 0%Z.
Proof.
  intros Hf. unfold strptime.
  destruct (run fmt ts no_fields) as [[a rest]|] eqn:R; [|discriminate].
  destruct (String.eqb rest ""); [|discriminate].
  unfold make_datetime. destruct (_ && _); [|discriminate].
  intros H; injection H as <-. simpl.
  exact (run_keeps_fraction fmt Hf _ _ _ _ R).
Qed.

Lemma try_formats_no_point (ts : string) (t : datetime) :
  ~ In "."%char (list_ascii_of_string ts) ->
  try_formats ts formats = Some t -> microsecond t = 0%Z.
Proof.
  intros Hno.
  assert (Hp : has_char "." ts = false).
  { destruct (has_char "." ts) eqn:E; auto.
    apply has_char_in in E. contradiction. }
  unfold formats. cbn [try_formats]. rewrite Hp. cbn [andb].
  rewrite (strptime_needs_point ts
             (date_ymd ++ [DWs] ++ time_hms ++ [DChar "."; Dir Ff]))
    by (auto; unfold date_ymd, time_hms; simpl; tauto).
  rewrite (strptime_needs_point ts
             (date_ymd ++ [DChar "T"] ++ time_hms ++ [DChar "."; Dir Ff]))
    by (auto; unfold date_ymd, time_hms; simpl; tauto).
  repeat match goal with
         | |- context [strptime ts ?f] =>
             let E := fresh "E" in
             destruct (strptime ts f) as [?t|] eqn:E;
             [intros H; injection H as <-;
              exact (strptime_no_fraction ts f _ eq_refl E) |]
         end.
  discriminate.
Qed.

Lemma key_has_no_fraction (e : log_entry) (line : string) :
  timestamp e = _extract_timestamp line ->
  microsecond (parse_timestamp e) = 0%Z.
Proof.
  intros H. unfold parse_timestamp.
  destruct (String.eqb (timestamp e) "Unknown"); [reflexivity|].
  destruct (try_formats (timestamp e) formats) as [t|] eqn:E;
    [|reflexivity].
  rewrite H in E. eapply try_formats_no_point; [|exact E].
  apply extract_no_point.
Qed.

Lemma directory_entry_origin (fs : filesystem) (files : list string)
      (tid : string) (e : log_entry) :
  In e (logs (_parse_trace_logs_from_directory fs files tid)) ->
  exists f e0, In f files /\ In e0 (logs (_parse_trace_logs fs f tid)) /\
               e = with_source_file (basename f) e0.
Proof.
  rewrite directory_logs. intros He.
  apply (Permutation_in _ (Permutation_sym (sorted_by_perm _ _ _ _ _))) in He.
  apply in_flat_map in He. destruct He as (f & Hf & He).
  unfold tagged in He. apply in_map_iff in He.
  destruct He as (e0 & <- & He0). eauto.
Qed.

(** X10.  The sort key of every entry, of one source or merged, has no
    fraction of a second: [_extract_timestamp] stops before a fraction, so
    lines that differ by milliseconds only have equal keys and keep the
    order in which they were read. *)
Theorem X10_sort_keys_have_no_fraction :
  forall (fs : filesystem) (tid : string),
    (forall f : string,
       Forall (fun e => microsecond (parse_timestamp e) = 0%Z)
              (logs (_parse_trace_logs fs f tid))) /\
    (forall files : list string,
       Forall (fun e => microsecond (parse_timestamp e) = 0%Z)
              (logs (_parse_trace_logs_from_directory fs files tid))).
Proof.
  intros fs tid.
  assert (S : forall f e, In e (logs (_parse_trace_logs fs f tid)) ->
                          exists line,
                            timestamp e = _extract_timestamp line).
  { intros f e He. destruct (fs f) as [text|] eqn:Hf.
    - pose proof (parse_from_line fs f tid text Hf) as F.
      rewrite Forall_forall in F.
      destruct (F e He) as (_ & _ & Ht & _). eauto.
    - rewrite (parse_failed fs tid f Hf) in He. destruct He. }
  split.
  - intros f. apply Forall_forall. intros e He.
    destruct (S f e He) as [line Hl]. exact (key_has_no_fraction e line Hl).
  - intros files. apply Forall_forall. intros e He.
    destruct (directory_entry_origin fs files tid e He)
      as (f & e0 & _ & He0 & ->).
    destruct (S f e0 He0) as [line Hl].
    exact (key_has_no_fraction _ line Hl).
Qed.


(* ================================================================== *)
(** * Properties of the analysis of a whole log file *)

Lemma continuation_not_error (line : string) :
  is_continuation line = true -> FullLog._is_error_line line = false.
Proof.
  unfold is_continuation, FullLog._is_error_line. intros ->.
  apply andb_false_r.
Qed.


Lemma take_continuation_all (l : list string) :
  Forall (fun x => is_continuation x = true) (take_continuation l).
Proof.
  induction l as [|x l IH]; simpl; [constructor|].
  destruct (is_continuation x) eqn:E; constructor; auto.
Qed.

Lemma take_continuation_firstn (l : list string) :
  firstn (List.length (take_continuation l)) l = take_continuation l.
Proof.
  induction l as [|x l IH]; simpl; auto.
  destruct (is_continuation x); simpl; congruence.
Qed.

Lemma firstn_add (l : list string) :
  forall n k, firstn (n + k) l = firstn n l ++ firstn k (skipn n l).
Proof.
  induction l as [|x l IH]; intros [|n] k; simpl; auto.
  - now rewrite firstn_nil.
  - now rewrite IH.
Qed.

(** The lines up to and including a line and the continuation lines
    after it. *)
Lemma firstn_block (lines : list string) (i : nat) :
  i < List.length lines ->
  let run := take_continuation (skipn (i + 1) lines) in
  firstn (i + 1 + List.length run) lines
  = firstn i lines ++ nth i lines ""%string :: run.
Proof.
  intros Hi run. rewrite <- Nat.add_assoc, firstn_add.
  rewrite (skipn_nth lines i Hi). cbn [Nat.add firstn]. f_equal. f_equal.
  unfold run. replace (i + 1) with (S i) by lia.
  apply take_continuation_firstn.
Qed.

(** The two shapes of one turn of the loop over a whole log file. *)
Lemma full_loop_body_cases (lines : list string) (st : FullLog.locals) :
  let i := FullLog.v_i st in
  let line := nth i lines ""%string in
  let run := take_continuation (skipn (i + 1) lines) in
  (FullLog._is_error_line line = false /\
   FullLog.loop_body lines st
   = FullLog.mkLocals (i + 1) (FullLog.v_errors st)
                      (FullLog.v_error_types st))
  \/
  (FullLog._is_error_line line = true /\
   FullLog.loop_body lines st
   = FullLog.mkLocals (i + 1 + List.length run)
       (FullLog.v_errors st ++
          [FullLog.mkError (_extract_timestamp line) ERROR (strip line)
             (map strip run)
             (FullLog.search_any FullLog.exception_patterns line)])
       (FullLog.v_error_types st ++
          match FullLog.search_any FullLog.exception_patterns line with
          | Some t => [t]
          | None => []
          end)).
Proof.
  intros i line run. unfold FullLog.loop_body. fold i. fold line.
  destruct (FullLog._is_error_line line); [right | left; auto].
  split; [reflexivity|].
  rewrite collect_stack_spec by lia. cbv zeta. fold run. simpl.
  destruct (FullLog.search_any FullLog.exception_patterns line);
    [reflexivity | now rewrite app_nil_r].
Qed.

Lemma full_scan_invariant (P : FullLog.locals -> Prop)
      (lines : list string) :
  (forall st, P st -> FullLog.v_i st < List.length lines ->
              P (FullLog.loop_body lines st)) ->
  forall fuel st, P st -> P (FullLog.scan fuel lines st).
Proof.
  intros Hstep. induction fuel as [|fuel IH]; intros st H; simpl; auto.
  destruct (FullLog.v_i st <? List.length lines) eqn:E; auto.
  apply IH, Hstep; auto. now apply Nat.ltb_lt.
Qed.

Lemma full_scan_exits (lines : list string) :
  forall fuel st,
    List.length lines <= FullLog.v_i st + fuel ->
    List.length lines <= FullLog.v_i (FullLog.scan fuel lines st).
Proof.
  induction fuel as [|fuel IH]; intros st H; simpl; [lia|].
  destruct (FullLog.v_i st <? List.length lines) eqn:E.
  - apply IH.
    destruct (full_loop_body_cases lines st) as [[_ ->] | [_ ->]];
      simpl; lia.
  - now apply Nat.ltb_ge.
Qed.

(** What the scan keeps true: the messages are the error lines read so
    far, the exception types are those of the entries, and every entry
    describes an error line and the continuation lines after it. *)
Lemma full_scan_facts (lines : list string) :
  forall fuel st,
    (map FullLog.message (FullLog.v_errors st)
     = map strip (filter FullLog._is_error_line
                         (firstn (FullLog.v_i st) lines)) /\
     FullLog.v_error_types st
     = flat_map (fun e => match FullLog.exception_type e with
                          | Some t => [t]
                          | None => []
                          end) (FullLog.v_errors st) /\
     Forall
       (fun e =>
          exists k line,
            nth_error lines k = Some line /\
            FullLog._is_error_line line = true /\
            FullLog.message e = strip line /\
            FullLog.timestamp e = _extract_timestamp line /\
            FullLog.level e = ERROR /\
            FullLog.exception_type e
            = FullLog.search_any FullLog.exception_patterns line /\
            FullLog.stack_trace e
            = map strip (take_continuation (skipn (k + 1) lines)))
       (FullLog.v_errors st)) ->
    let st' := FullLog.scan fuel lines st in
    map FullLog.message (FullLog.v_errors st')
    = map strip (filter FullLog._is_error_line
                        (firstn (FullLog.v_i st') lines)) /\
    FullLog.v_error_types st'
    = flat_map (fun e => match FullLog.exception_type e with
                         | Some t => [t]
                         | None => []
                         end) (FullLog.v_errors st') /\
    Forall
      (fun e =>
         exists k line,
           nth_error lines k = Some line /\
           FullLog._is_error_line line = true /\
           FullLog.message e = strip line /\
           FullLog.timestamp e = _extract_timestamp line /\
           FullLog.level e = ERROR /\
           FullLog.exception_type e
           = FullLog.search_any FullLog.exception_patterns line /\
           FullLog.stack_trace e
           = map strip (take_continuation (skipn (k + 1) lines)))
      (FullLog.v_errors st').
Proof.
  intros fuel st H. cbv zeta. revert fuel st H.
  apply (full_scan_invariant
           (fun st =>
              map FullLog.message (FullLog.v_errors st)
              = map strip (filter FullLog._is_error_line
                                  (firstn (FullLog.v_i st) lines)) /\
              FullLog.v_error_types st
              = flat_map (fun e => match FullLog.exception_type e with
                                   | Some t => [t]
                                   | None => []
                                   end) (FullLog.v_errors st) /\
              Forall
                (fun e =>
                   exists k line,
                     nth_error lines k = Some line /\
                     FullLog._is_error_line line = true /\
                     FullLog.message e = strip line /\
                     FullLog.timestamp e = _extract_timestamp line /\
                     FullLog.level e = ERROR /\
                     FullLog.exception_type e
                     = FullLog.search_any FullLog.exception_patterns line /\
                     FullLog.stack_trace e
                     = map strip (take_continuation (skipn (k + 1) lines)))
                (FullLog.v_errors st))).
  intros st (Hm & Ht & Hd) Hlt.
  destruct (full_loop_body_cases lines st) as [[He ->] | [He ->]];
    cbn [FullLog.v_i FullLog.v_errors FullLog.v_error_types].
  - split; [|auto].
    rewrite firstn_add, (skipn_nth lines _ Hlt). cbn [firstn].
    rewrite filter_app. cbn [filter]. rewrite He, app_nil_r. exact Hm.
  - split; [|split].
    + rewrite (firstn_block lines _ Hlt), filter_app. cbn [filter].
      rewrite He, !map_app, Hm. cbn [map FullLog.message]. f_equal. f_equal.
      assert (E : forall l, Forall (fun x => is_continuation x = true) l ->
                            filter FullLog._is_error_line l = []).
      { induction 1 as [|x l Hx _ IH]; simpl; auto.
        now rewrite (continuation_not_error x Hx). }
      rewrite E by apply take_continuation_all. reflexivity.
    + rewrite flat_map_app, Ht. cbn [flat_map FullLog.exception_type].
      now rewrite app_nil_r.
    + apply Forall_app. split; [exact Hd|]. constructor; [|constructor].
      exists (FullLog.v_i st), (nth (FullLog.v_i st) lines ""%string).
      cbn. split; [now apply nth_error_nth'|]. auto 10.
Qed.

Lemma full_scan_result (lines : list string) :
  let st := FullLog.scan (List.length lines) lines
                         (FullLog.mkLocals 0 [] []) in
  map FullLog.message (FullLog.v_errors st)
  = map strip (filter FullLog._is_error_line lines) /\
  FullLog.v_error_types st
  = flat_map (fun e => match FullLog.exception_type e with
                       | Some t => [t]
                       | None => []
                       end) (FullLog.v_errors st) /\
  Forall
    (fun e =>
       exists k line,
         nth_error lines k = Some line /\
         FullLog._is_error_line line = true /\
         FullLog.message e = strip line /\
         FullLog.timestamp e = _extract_timestamp line /\
         FullLog.level e = ERROR /\
         FullLog.exception_type e
         = FullLog.search_any FullLog.exception_patterns line /\
         FullLog.stack_trace e
         = map strip (take_continuation (skipn (k + 1) lines)))
    (FullLog.v_errors st).
Proof.
  intros st.
  destruct (full_scan_facts lines (List.length lines)
              (FullLog.mkLocals 0 [] []))
    as (Hm & Ht & Hd).
  { simpl. repeat split; constructor. }
  fold st in Hm, Ht, Hd. split; [|auto].
  rewrite Hm, firstn_all2; [reflexivity|].
  apply full_scan_exits. simpl. lia.
Qed.

(** X12.  [_parse_log_file] gives every error line of the file exactly
    one entry, in file order, with the stripped line as its message: no
    error line is lost in a stack trace, because a stack trace only takes
    continuation lines and those are never error lines.  [error_count] is
    the number of error lines and [total_lines] the number of lines; a
    file that cannot be read gives the empty result. *)
Theorem X12_every_error_line_has_one_entry :
  forall (fs : filesystem) (f : string),
    let r := FullLog._parse_log_file fs f in
    match fs f with
    | Some text =>
        map FullLog.message (FullLog.errors r)
        = map strip (filter FullLog._is_error_line (readlines text)) /\
        FullLog.error_count r
        = List.length (filter FullLog._is_error_line (readlines text)) /\
        FullLog.total_lines r = List.length (readlines text)
    | None => r = FullLog.mkLogData f 0 0 [] []
    end.
Proof.
  intros fs f r. unfold r, FullLog._parse_log_file.
  destruct (fs f) as [text|]; [|reflexivity]. simpl.
  destruct (full_scan_result (readlines text)) as (Hm & _ & _).
  cbv zeta in Hm. split; [exact Hm|]. split; [|reflexivity].
  rewrite <- (length_map FullLog.message), Hm, length_map. reflexivity.
Qed.

(** X13.  Every entry of [_parse_log_file] describes an error line of the
    file: its message is the stripped line, its timestamp and exception
    type are read from that line, its level is ERROR whatever keyword
    made it an error line, and its stack trace is the run of continuation
    lines that follows the line, stripped, in order. *)
Theorem X13_error_entries_describe_error_lines :
  forall (fs : filesystem) (f text : string),
    fs f = Some text ->
    Forall
      (fun e =>
         exists k line,
           nth_error (readlines text) k = Some line /\
           FullLog._is_error_line line = true /\
           FullLog.message e = strip line /\
           FullLog.timestamp e = _extract_timestamp line /\
           FullLog.level e = ERROR /\
           FullLog.exception_type e
           = FullLog.search_any FullLog.exception_patterns line /\
           FullLog.stack_trace e
           = map strip (take_continuation
                          (skipn (k + 1) (readlines text))))
      (FullLog.errors (FullLog._parse_log_file fs f)).
Proof.
  intros fs f text Hf. unfold FullLog._parse_log_file. rewrite Hf. simpl.
  exact (proj2 (proj2 (full_scan_result (readlines text)))).
Qed.

(** ** The exception type *)

Lemma word_spec (c : ascii) :
  atom_match false FullLog.word c = FullLog.is_word c.
Proof.
  destruct c as [[] [] [] [] [] [] [] []]; vm_compute; reflexivity.
Qed.

Lemma match_here_exact (t : string) :
  forall s m, match_here false (lits t) s = Some m -> m = t.
Proof.
  induction t as [|c t IH]; intros s m; simpl.
  - intros H; now injection H as <-.
  - destruct s as [|ch s]; [discriminate|].
    destruct (Ascii.eqb_spec c ch) as [<-|]; [|discriminate].
    destruct (match_here false (lits t) s) as [m0|] eqn:E; [|discriminate].
    intros H; injection H as <-. now rewrite (IH _ _ E).
Qed.

Lemma star_word_then (t : string) :
  forall s m,
    star false FullLog.word (match_here false (lits t)) s = Some m ->
    exists w, m = (w ++ t)%string /\
              Forall (fun c => FullLog.is_word c = true)
                     (list_ascii_of_string w).
Proof.
  induction s as [|c s IH]; intros m; cbn [star].
  - intros H. apply match_here_exact in H. subst.
    exists ""%string. simpl. auto.
  - destruct (atom_match false FullLog.word c) eqn:A.
    + destruct (star false FullLog.word (match_here false (lits t)) s)
        as [m0|] eqn:E.
      * intros H; injection H as <-.
        destruct (IH _ eq_refl) as (w & -> & Hw).
        exists (String c w). simpl. split; [reflexivity|].
        constructor; [|exact Hw]. rewrite <- word_spec. exact A.
      * intros H. apply match_here_exact in H. subst.
        exists ""%string. simpl. auto.
    + intros H. apply match_here_exact in H. subst.
      exists ""%string. simpl. auto.
Qed.

Lemma word_then_shape (t s m : string) :
  match_here false (Many1 FullLog.word :: lits t) s = Some m ->
  exists w, w <> ""%string /\ m = (w ++ t)%string /\
            Forall (fun c => FullLog.is_word c = true)
                   (list_ascii_of_string w).
Proof.
  cbn [match_here]. destruct s as [|c s]; [discriminate|].
  destruct (atom_match false FullLog.word c) eqn:A; [|discriminate].
  destruct (star false FullLog.word (match_here false (lits t)) s)
    as [m0|] eqn:E; [|discriminate].
  intros H; injection H as <-.
  destruct (star_word_then t _ _ E) as (w & -> & Hw).
  exists (String c w). split; [discriminate|]. split; [reflexivity|].
  simpl. constructor; [|exact Hw]. now rewrite <- word_spec.
Qed.

Lemma first_match_in (ps : list pattern) (s m : string) :
  FullLog.first_match ps s = Some m ->
  exists p, In p ps /\ match_here false p s = Some m.
Proof.
  induction ps as [|p ps IH]; simpl; [discriminate|].
  destruct (match_here false p s) as [m0|] eqn:E.
  - intros H; injection H as <-. eauto.
  - intros H. destruct (IH H) as (q & Hq & Hm). eauto.
Qed.

Lemma search_any_at (ps : list pattern) :
  forall s m,
    FullLog.search_any ps s = Some m ->
    exists p pre s2, In p ps /\ s = (pre ++ s2)%string /\
                     match_here false p s2 = Some m.
Proof.
  induction s as [|c s IH]; intros m; simpl.
  - destruct (FullLog.first_match ps "") as [m0|] eqn:E; [|discriminate].
    intros H; injection H as <-.
    destruct (first_match_in _ _ _ E) as (p & Hp & Hm).
    exists p, ""%string, ""%string. auto.
  - destruct (FullLog.first_match ps (String c s)) as [m0|] eqn:E.
    + intros H; injection H as <-.
      destruct (first_match_in _ _ _ E) as (p & Hp & Hm).
      exists p, ""%string, (String c s). auto.
    + intros H. destruct (IH _ H) as (p & pre & s2 & Hp & -> & Hm).
      exists p, (String c pre), s2. auto.
Qed.

(** X14.  The exception type read from a line is a piece of the line
    itself: one or more word characters followed by [Exception] or by
    [Error], in that exact letter case.  A bare [Exception] or [Error]
    with no word character before it gives no exception type. *)
Theorem X14_exception_type_is_a_word_of_the_line :
  forall line t : string,
    FullLog.search_any FullLog.exception_patterns line = Some t ->
    (exists pre post, line = (pre ++ t ++ post)%string) /\
    (exists w,
       w <> ""%string /\
       Forall (fun c => FullLog.is_word c = true)
              (list_ascii_of_string w) /\
       (t = (w ++ "Exception")%string \/ t = (w ++ "Error")%string)).
Proof.
  intros line t H. apply search_any_at in H.
  destruct H as (p & pre & s2 & Hp & -> & Hm). split.
  - destruct (match_here_prefix _ _ _ _ Hm) as [post ->]. eauto.
  - unfold FullLog.exception_patterns in Hp. cbn [In] in Hp.
    destruct Hp as [<- | [<- | []]];
      apply word_then_shape in Hm; destruct Hm as (w & Hw & -> & Fw);
      exists w; auto.
Qed.

(** X14 at a line with a qualified exception name. *)
Lemma X14_witness :
  exists w,
    w <> ""%string /\
    Forall (fun c => FullLog.is_word c = true) (list_ascii_of_string w) /\
    ("NullPointerException"%string = (w ++ "Exception")%string \/
     "NullPointerException"%string = (w ++ "Error")%string).
Proof.
  exact (proj2 (X14_exception_type_is_a_word_of_the_line
                  "ERROR java.lang.NullPointerException: null"
                  "NullPointerException" eq_refl)).
Defined.

(** X13 at a file with an error line and two lines of stack trace. *)
Lemma X13_witness :
  Forall
    (fun e => FullLog.level e = ERROR)
    (FullLog.errors
       (FullLog._parse_log_file
          (Samples.holding (Samples.unlines Samples.scenario)) "app.log")).
Proof.
  eapply Forall_impl;
    [| exact (X13_error_entries_describe_error_lines
                (Samples.holding (Samples.unlines Samples.scenario))
                "app.log" _ eq_refl)].
  intros e (k & line & _ & _ & _ & _ & Hl & _). exact Hl.
Defined.

(** ** [Counter] and [most_common] *)

Lemma count_of_add (x : string) (c : list (string * nat)) (k : string) :
  FullLog.count_of (FullLog.counter_add x c) k
  = if String.eqb k x then FullLog.count_of c x + 1
    else FullLog.count_of c k.
Proof.
  unfold FullLog.count_of.
  induction c as [|[k' n] c IH]; simpl.
  - destruct (String.eqb k x); reflexivity.
  - destruct (String.eqb_spec x k') as [<-|N]; simpl.
    + destruct (String.eqb k x); reflexivity.
    + destruct (String.eqb_spec k k') as [->|N'].
      * destruct (String.eqb_spec k' x); [congruence | reflexivity].
      * exact IH.
Qed.

Lemma keys_add (x : string) (c : list (string * nat)) (k : string) :
  In k (map fst (FullLog.counter_add x c)) <-> k = x \/ In k (map fst c).
Proof.
  induction c as [|[k' n] c IH]; simpl.
  - intuition.
  - destruct (String.eqb_spec x k') as [<-|N]; simpl.
    + intuition.
    + rewrite IH. intuition.
Qed.

Lemma keys_add_nodup (x : string) (c : list (string * nat)) :
  NoDup (map fst c) -> NoDup (map fst (FullLog.counter_add x c)).
Proof.
  induction c as [|[k' n] c IH]; simpl; intros H.
  - repeat constructor. intros [].
  - inversion H as [|? ? Hk Hc]; subst.
    destruct (String.eqb_spec x k') as [<-|N]; simpl.
    + now constructor.
    + constructor; [|auto]. rewrite keys_add. intuition.
Qed.

Lemma positive_add (x : string) (c : list (string * nat)) :
  Forall (fun p => 1 <= snd p) c ->
  Forall (fun p => 1 <= snd p) (FullLog.counter_add x c).
Proof.
  induction 1 as [|[k' n] c Hp Hc IH]; simpl.
  - repeat constructor.
  - destruct (String.eqb x k'); constructor; simpl in *; auto; lia.
Qed.

Lemma counter_fold (l : list string) :
  forall c0,
    NoDup (map fst c0) -> Forall (fun p => 1 <= snd p) c0 ->
    let c := fold_left (fun c k => FullLog.counter_add k c) l c0 in
    NoDup (map fst c) /\ Forall (fun p => 1 <= snd p) c /\
    forall k, FullLog.count_of c k
              = FullLog.count_of c0 k + count_occ string_dec l k.
Proof.
  induction l as [|x l IH]; intros c0 Hn Hp; simpl.
  - repeat split; auto.
  - destruct (IH (FullLog.counter_add x c0)
                 (keys_add_nodup x c0 Hn) (positive_add x c0 Hp))
      as (H1 & H2 & H3).
    repeat split; auto. intros k. rewrite H3, count_of_add.
    destruct (string_dec x k) as [->|N].
    + rewrite String.eqb_refl. lia.
    + destruct (String.eqb_spec k x); [congruence | lia].
Qed.

Lemma count_of_in (c : list (string * nat)) (k : string) (n : nat) :
  NoDup (map fst c) -> In (k, n) c -> FullLog.count_of c k = n.
Proof.
  unfold FullLog.count_of.
  induction c as [|[k' n'] c IH]; simpl; intros Hn H; [contradiction|].
  destruct H as [H|H].
  - injection H as -> ->. now rewrite String.eqb_refl.
  - inversion Hn as [|? ? Hk Hc]; subst.
    destruct (String.eqb_spec k k') as [->|N]; [|auto].
    exfalso. apply Hk. apply in_map_iff. exists (k', n). auto.
Qed.

Lemma in_of_count (c : list (string * nat)) (k : string) :
  FullLog.count_of c k <> 0 -> In (k, FullLog.count_of c k) c.
Proof.
  unfold FullLog.count_of.
  destruct (find (fun p => String.eqb k (fst p)) c) as [[k' n]|] eqn:E;
    [|congruence].
  intros _. apply find_some in E. destruct E as [Hin He].
  simpl in He. apply String.eqb_eq in He. now subst.
Qed.

Lemma StronglySorted_app_inv {A : Type} (R : A -> A -> Prop)
      (l1 l2 : list A) :
  StronglySorted R (l1 ++ l2) ->
  StronglySorted R l1 /\
  forall a b, In a l1 -> In b l2 -> R a b.
Proof.
  induction l1 as [|x l1 IH]; simpl; intros H.
  - split; [constructor | intros a b []].
  - inversion H as [|? ? Hs Hx]; subst.
    destruct (IH Hs) as [H1 H2]. rewrite Forall_app in Hx.
    destruct Hx as [Hx1 Hx2]. split; [now constructor|].
    intros a b [<-|Ha] Hb; [|auto].
    rewrite Forall_forall in Hx2. auto.
Qed.

(** What [most_common(n)] of a counter is. *)
Lemma most_common_facts (n : nat) (l : list string) :
  let mc := FullLog.most_common n (FullLog.Counter l) in
  List.length mc <= n /\
  NoDup (map fst mc) /\
  StronglySorted (fun a b => snd b <= snd a) mc /\
  (forall k m, In (k, m) mc -> m = count_occ string_dec l k /\ 1 <= m) /\
  (forall k, In k l ->
     In k (map fst mc) \/
     (List.length mc = n /\
      forall p, In p mc -> count_occ string_dec l k <= snd p)).
Proof.
  intros mc.
  destruct (counter_fold l [] (NoDup_nil _) (Forall_nil _))
    as (Hn & Hp & Hc).
  fold (FullLog.Counter l) in Hn, Hp, Hc.
  set (c := FullLog.Counter l) in *.
  assert (Hc0 : forall k, FullLog.count_of c k = count_occ string_dec l k)
    by (intros k; rewrite Hc; reflexivity).
  clear Hc.
  set (s := sorted_by snd (fun a b : nat => b <? a) c).
  assert (P : Permutation c s) by apply sorted_by_perm.
  assert (S : StronglySorted (fun a b => snd b <= snd a) s).
  { eapply StronglySorted_weaken with (P := fun _ => True);
      [| apply Forall_forall; auto
       | apply (sorted_by_sorted _ _ snd (fun a b : nat => b <? a))].
    - unfold not_after. intros a b _ _ H. apply Nat.ltb_ge in H. exact H.
    - intros a b H. apply Nat.ltb_lt in H. apply Nat.ltb_ge. lia.
    - intros a b d H. apply Nat.ltb_lt in H.
      destruct (b <? a) eqn:E; auto. right.
      apply Nat.ltb_ge in E. apply Nat.ltb_lt. lia. }
  assert (Split : s = mc ++ skipn n s)
    by (symmetry; apply firstn_skipn).
  rewrite Split in S. apply StronglySorted_app_inv in S.
  destruct S as [S1 S2].
  assert (Ns : NoDup (map fst s)).
  { eapply Permutation_NoDup; [apply Permutation_map, P | exact Hn]. }
  split; [apply firstn_le_length|]. split; [|split; [exact S1|split]].
  - rewrite Split, map_app in Ns. now apply NoDup_app_remove_r in Ns.
  - intros k m Hin.
    assert (Hc' : In (k, m) c).
    { apply (Permutation_in _ (Permutation_sym P)).
      rewrite Split. apply in_or_app. now left. }
    pose proof (count_of_in c k m Hn Hc') as E. rewrite Hc0 in E.
    split; [symmetry; exact E|].
    rewrite Forall_forall in Hp. exact (Hp _ Hc').
  - intros k Hk.
    assert (Hpos : count_occ string_dec l k <> 0).
    { apply (count_occ_In string_dec) in Hk. lia. }
    assert (Hin : In (k, count_occ string_dec l k) s).
    { apply (Permutation_in _ P). rewrite <- Hc0.
      apply in_of_count. rewrite Hc0. exact Hpos. }
    rewrite Split in Hin. apply in_app_or in Hin.
    destruct Hin as [Hin|Hin].
    + left. apply in_map_iff. exists (k, count_occ string_dec l k). auto.
    + right. split.
      * unfold mc, FullLog.most_common. fold c. fold s.
        apply firstn_length_le.
        destruct (Nat.le_gt_cases n (List.length s)) as [L|G]; auto.
        rewrite skipn_all2 in Hin by lia. destruct Hin.
      * intros p Hp'. exact (S2 p _ Hp' Hin).
Qed.

Lemma parse_log_file_types (fs : filesystem) (f : string) :
  let r := FullLog._parse_log_file fs f in
  FullLog.error_types r
  = FullLog.most_common 10
      (FullLog.Counter
         (flat_map (fun e => match FullLog.exception_type e with
                             | Some t => [t]
                             | None => []
                             end) (FullLog.errors r))).
Proof.
  unfold FullLog._parse_log_file. destruct (fs f) as [text|]; simpl.
  - destruct (full_scan_result (readlines text)) as (_ & Ht & _).
    cbv zeta in Ht. now rewrite <- Ht.
  - reflexivity.
Qed.

(** X15.  The table of error types of [_parse_log_file] has at most ten
    rows, one per exception type, in non-increasing order of count; the
    count of a row is the number of entries with that exception type, at
    least one; and an exception type that has no row has no more entries
    than any type that has one, the table then being full. *)
Theorem X15_error_types_are_the_ten_most_common :
  forall (fs : filesystem) (f : string),
    let r := FullLog._parse_log_file fs f in
    let types :=
      flat_map (fun e => match FullLog.exception_type e with
                         | Some t => [t]
                         | None => []
                         end) (FullLog.errors r) in
    List.length (FullLog.error_types r) <= 10 /\
    NoDup (map fst (FullLog.error_types r)) /\
    StronglySorted (fun a b => snd b <= snd a) (FullLog.error_types r) /\
    (forall k n, In (k, n) (FullLog.error_types r) ->
                 n = count_occ string_dec types k /\ 1 <= n) /\
    (forall k, In k types ->
       In k (map fst (FullLog.error_types r)) \/
       (List.length (FullLog.error_types r) = 10 /\
        forall p, In p (FullLog.error_types r) ->
                  count_occ string_dec types k <= snd p)).
Proof.
  intros fs f r types. unfold r at 1 2 3 4 5 6 7.
  rewrite (parse_log_file_types fs f). fold r. fold types.
  apply most_common_facts.
Qed.


(* ================================================================== *)
(** * Properties of the scan of a directory for log files *)

Lemma str_ltb_asym (a : string) :
  forall b, FileScan.str_ltb a b = true -> FileScan.str_ltb b a = false.
Proof.
  induction a as [|x a IH]; intros [|y b]; simpl; auto; try discriminate.
  destruct (code x <? code y) eqn:E1, (code y <? code x) eqn:E2;
    auto; try discriminate.
  apply Nat.ltb_lt in E1. apply Nat.ltb_lt in E2. lia.
Qed.

Lemma str_ltb_cotrans (a : string) :
  forall b c, FileScan.str_ltb a c = true ->
              FileScan.str_ltb a b = true \/ FileScan.str_ltb b c = true.
Proof.
  induction a as [|x a IH]; intros [|y b] [|z c]; simpl; auto;
    try discriminate.
  destruct (code x <? code z) eqn:XZ, (code z <? code x) eqn:ZX,
           (code x <? code y) eqn:XY, (code y <? code x) eqn:YX,
           (code y <? code z) eqn:YZ, (code z <? code y) eqn:ZY;
    auto; try discriminate;
    rewrite ?Nat.ltb_lt, ?Nat.ltb_ge in *; try lia.
Qed.

Lemma endswith_iff (s p : string) :
  FileScan.endswith s p = true <-> exists pre, s = (pre ++ p)%string.
Proof.
  induction s as [|c s IH]; cbn [FileScan.endswith].
  - rewrite orb_false_r, String.eqb_eq. split.
    + intros <-. now exists ""%string.
    + intros [pre H]. destruct pre; simpl in H; [auto | discriminate].
  - rewrite orb_true_iff, String.eqb_eq, IH. split.
    + intros [<- | [pre ->]]; [now exists ""%string|].
      now exists (String c pre).
    + intros [pre H]. destruct pre as [|d pre]; simpl in H; [auto|].
      right. exists pre. congruence.
Qed.

(** A joined path ends with the name that was joined. *)
Lemma join_suffix (root name : string) :
  exists pre, FileScan.join root name = (pre ++ name)%string.
Proof.
  unfold FileScan.join.
  destruct (startswith name "/"); [now exists ""%string|].
  destruct (_ || _); [now exists root|].
  exists (root ++ "/")%string. now rewrite append_assoc3.
Qed.

Lemma StronglySorted_filter {A : Type} (R : A -> A -> Prop)
      (f : A -> bool) (l : list A) :
  StronglySorted R l -> StronglySorted R (filter f l).
Proof.
  induction 1 as [|x l Hs IH Hx]; simpl; [constructor|].
  destruct (f x); auto. constructor; auto.
  rewrite Forall_forall in *. intros y Hy.
  apply filter_In in Hy. now apply Hx.
Qed.

Lemma scan_log_files_sorted (walk : FileScan.walker) (directory : string) :
  StronglySorted (fun a b => FileScan.str_ltb b a = false)
                 (FileScan._scan_log_files walk directory).
Proof.
  unfold FileScan._scan_log_files.
  destruct (walk directory) as [entries|]; [|constructor].
  apply (sorted_by_sorted _ _ (fun p : string => p) FileScan.str_ltb).
  - intros a b. apply str_ltb_asym.
  - intros a b c. apply str_ltb_cotrans.
Qed.

(** X16.  [_scan_log_files] returns the paths of the files of the walk
    whose name ends in [.log], [.txt] or [.out], each as often as the walk
    has it, joined to its directory, in ascending order of code points;
    every path returned ends in one of the three extensions; a walk that
    raises gives the empty list. *)
Theorem X16_scan_returns_the_log_files_sorted :
  forall (walk : FileScan.walker) (directory : string),
    let r := FileScan._scan_log_files walk directory in
    match walk directory with
    | None => r = []
    | Some entries =>
        Permutation (FileScan.found_files entries) r /\
        StronglySorted (fun a b => FileScan.str_ltb b a = false) r /\
        (forall root dirs files name,
           In (root, dirs, files) entries -> In name files ->
           FileScan.is_log_name name = true ->
           In (FileScan.join root name) r) /\
        Forall
          (fun p => exists pre ext,
               In ext [".log"; ".txt"; ".out"]%string /\
               p = (pre ++ ext)%string)
          r
    end.
Proof.
  intros walk directory r.
  pose proof (scan_log_files_sorted walk directory) as S. fold r in S.
  unfold r, FileScan._scan_log_files in *.
  destruct (walk directory) as [entries|]; [|reflexivity].
  assert (P : Permutation (FileScan.found_files entries)
                (sorted_by (fun p : string => p) FileScan.str_ltb
                           (FileScan.found_files entries)))
    by apply sorted_by_perm.
  split; [exact P|]. split; [exact S|]. split.
  - intros root dirs files name He Hn Hl.
    apply (Permutation_in _ P). unfold FileScan.found_files.
    apply in_flat_map. exists (root, dirs, files). split; [exact He|].
    apply in_map, filter_In. auto.
  - apply Forall_forall. intros p Hp.
    apply (Permutation_in _ (Permutation_sym P)) in Hp.
    unfold FileScan.found_files in Hp. apply in_flat_map in Hp.
    destruct Hp as ([[root dirs] files] & _ & Hp).
    apply in_map_iff in Hp. destruct Hp as (name & <- & Hn).
    apply filter_In in Hn. destruct Hn as [_ Hl].
    unfold FileScan.is_log_name in Hl. apply existsb_exists in Hl.
    destruct Hl as (ext & He & Hs). apply endswith_iff in Hs.
    destruct Hs as [pre ->].
    destruct (join_suffix root (pre ++ ext)) as [pre' ->].
    exists (pre' ++ pre)%string, ext. split; [exact He|].
    now rewrite append_assoc3.
Qed.

(** X17.  When the files of a directory scan are those found by
    [_scan_log_files], the source files of the merged result are files
    that were found, listed in ascending order of code points. *)
Theorem X17_source_files_of_a_scanned_directory_are_sorted :
  forall (walk : FileScan.walker) (fs : filesystem)
         (directory tid : string),
    let files := FileScan._scan_log_files walk directory in
    let r := _parse_trace_logs_from_directory fs files tid in
    exists l,
      source_files r = Some l /\
      StronglySorted (fun a b => FileScan.str_ltb b a = false) l /\
      forall p, In p l ->
                In p files /\ logs (_parse_trace_logs fs p tid) <> [].
Proof.
  intros walk fs directory tid files r.
  exists (filter (contributes fs tid) files).
  split; [apply directory_source_files|]. split.
  - apply StronglySorted_filter, scan_log_files_sorted.
  - intros p Hp. apply filter_In in Hp. destruct Hp as [Hp Hc].
    split; [exact Hp|]. unfold contributes in Hc.
    destruct (logs (_parse_trace_logs fs p tid)); [discriminate|].
    discriminate.
Qed.


(* ================================================================== *)
(** * The order of the input and the result *)

(** Two sorted lists with the same elements are the same list, when
    elements that are not before one another are equal. *)
Lemma sorted_perm_unique {K : Type} (lt : K -> K -> bool) :
  (forall a, lt a a = false) ->
  (forall a b, lt a b = false -> lt b a = false -> a = b) ->
  forall l1 l2,
    StronglySorted (fun a b => lt b a = false) l1 ->
    StronglySorted (fun a b => lt b a = false) l2 ->
    Permutation l1 l2 -> l1 = l2.
Proof.
  intros Hirr Hanti.
  induction l1 as [|x l1 IH]; intros l2 S1 S2 P.
  - apply Permutation_nil in P. now subst.
  - destruct l2 as [|y l2].
    { apply Permutation_sym, Permutation_nil in P. discriminate. }
    inversion S1 as [|? ? S1' F1]; subst.
    inversion S2 as [|? ? S2' F2]; subst.
    rewrite Forall_forall in F1, F2.
    assert (E : x = y).
    { apply Hanti.
      - assert (Hx : In x (y :: l2))
          by (apply (Permutation_in _ P); now left).
        destruct Hx as [<-|Hx]; [apply Hirr | now apply F2].
      - assert (Hy : In y (x :: l1))
          by (apply (Permutation_in _ (Permutation_sym P)); now left).
        destruct Hy as [<-|Hy]; [apply Hirr | now apply F1]. }
    subst y. f_equal. apply IH; auto.
    now apply Permutation_cons_inv in P.
Qed.

Lemma StronglySorted_map {A B : Type} (f : A -> B) (R : B -> B -> Prop)
      (l : list A) :
  StronglySorted (fun a b => R (f a) (f b)) l ->
  StronglySorted R (map f l).
Proof.
  induction 1 as [|x l Hs IH Hx]; simpl; constructor; auto.
  apply Forall_map. exact Hx.
Qed.

Lemma lex_ltb_antisym (a : list Z) :
  forall b, List.length a = List.length b ->
            lex_ltb a b = false -> lex_ltb b a = false -> a = b.
Proof.
  induction a as [|x a IH]; intros [|y b] Hl; simpl in *;
    try discriminate; auto.
  destruct (x <? y)%Z eqn:E1; [discriminate|].
  destruct (y <? x)%Z eqn:E2; [discriminate|].
  apply Z.ltb_ge in E1, E2. intros H1 H2.
  f_equal; [lia | apply IH; auto].
Qed.

Lemma ltb_antisym (a b : datetime) :
  Datetime.ltb a b = false -> Datetime.ltb b a = false -> a = b.
Proof.
  unfold Datetime.ltb. intros H1 H2.
  assert (E : as_tuple a = as_tuple b)
    by (apply lex_ltb_antisym; auto).
  destruct a, b. unfold as_tuple in E. simpl in E.
  injection E as -> -> -> -> -> -> ->. reflexivity.
Qed.

Lemma code_inj (x y : ascii) : code x = code y -> x = y.
Proof.
  unfold code. intros H.
  rewrite <- (ascii_nat_embedding x), <- (ascii_nat_embedding y).
  now rewrite H.
Qed.

Lemma str_ltb_irrefl (a : string) : FileScan.str_ltb a a = false.
Proof.
  destruct (FileScan.str_ltb a a) eqn:E; auto.
  now rewrite (str_ltb_asym _ _ E) in E.
Qed.

Lemma str_ltb_antisym (a : string) :
  forall b, FileScan.str_ltb a b = false ->
            FileScan.str_ltb b a = false -> a = b.
Proof.
  induction a as [|x a IH]; intros [|y b]; simpl; auto; try discriminate.
  destruct (code x <? code y) eqn:E1; [discriminate|].
  destruct (code y <? code x) eqn:E2; [discriminate|].
  apply Nat.ltb_ge in E1, E2. intros H1 H2.
  f_equal; [apply code_inj; lia | apply IH; auto].
Qed.

(** X18.  The list returned by [_scan_log_files] does not depend on the
    order in which the walk yields directories and files: two walks that
    yield the same log files, in any order, give the same list. *)
Theorem X18_scan_does_not_depend_on_walk_order :
  forall (walk walk' : FileScan.walker) (directory : string)
         (entries entries' : list FileScan.walk_entry),
    walk directory = Some entries ->
    walk' directory = Some entries' ->
    Permutation (FileScan.found_files entries)
                (FileScan.found_files entries') ->
    FileScan._scan_log_files walk directory
    = FileScan._scan_log_files walk' directory.
Proof.
  intros walk walk' directory entries entries' H H' P.
  pose proof (scan_log_files_sorted walk directory) as S.
  pose proof (scan_log_files_sorted walk' directory) as S'.
  unfold FileScan._scan_log_files in *. rewrite H in *. rewrite H' in *.
  apply (sorted_perm_unique FileScan.str_ltb);
    [exact str_ltb_irrefl | exact str_ltb_antisym | exact S | exact S' |].
  eapply perm_trans; [apply Permutation_sym, sorted_by_perm|].
  eapply perm_trans; [exact P | apply sorted_by_perm].
Qed.

(** X18 at a directory with two log files, yielded in either order. *)
Lemma X18_witness :
  FileScan._scan_log_files
    (fun _ => Some [("/var/log", [], ["b.log"; "a.log"])]%string) "/var/log"
  = FileScan._scan_log_files
      (fun _ => Some [("/var/log", [], ["a.log"; "b.log"])]%string)
      "/var/log".
Proof.
  apply (X18_scan_does_not_depend_on_walk_order
           (fun _ => Some [("/var/log", [], ["b.log"; "a.log"])]%string)
           (fun _ => Some [("/var/log", [], ["a.log"; "b.log"])]%string)
           "/var/log" _ _ eq_refl eq_refl).
  apply perm_swap.
Defined.

Lemma directory_counts (fs : filesystem) (files : list string)
      (tid : string) :
  let r := _parse_trace_logs_from_directory fs files tid in
  error_count r = count_level ERROR (logs r) /\
  warn_count r = count_level WARN (logs r) /\
  info_count r = count_level INFO (logs r) /\
  total_logs r = List.length (logs r).
Proof.
  intros r.
  assert (C : forall lv,
             count_level lv (logs r)
             = list_sum (map (fun f => count_level lv
                                (logs (_parse_trace_logs fs f tid)))
                             files)).
  { intros lv. unfold r. rewrite directory_logs.
    rewrite <- count_level_flat_map.
    symmetry. apply count_level_perm, sorted_by_perm. }
  rewrite !C. unfold r, _parse_trace_logs_from_directory. simpl.
  destruct (fold_add_file fs tid files (mkTotals [] 0 0 0 []))
    as (_ & He & Hw & Hi & _).
  simpl in He, Hw, Hi. rewrite He, Hw, Hi.
  repeat split; f_equal; apply map_ext; intros f; apply parse_counts.
Qed.

(** X19.  Scanning the same files in another order changes the merged
    result only among entries of equal key: the merged entries are the
    same up to order, their keys form the same sequence, and the total
    and the three counts are the same. *)
Theorem X19_merge_depends_on_file_order_only_in_ties :
  forall (fs : filesystem) (files files' : list string) (tid : string),
    Permutation files files' ->
    let r := _parse_trace_logs_from_directory fs files tid in
    let r' := _parse_trace_logs_from_directory fs files' tid in
    Permutation (logs r) (logs r') /\
    map parse_timestamp (logs r) = map parse_timestamp (logs r') /\
    total_logs r = total_logs r' /\ error_count r = error_count r' /\
    warn_count r = warn_count r' /\ info_count r = info_count r'.
Proof.
  intros fs files files' tid P r r'.
  assert (PL : Permutation (logs r) (logs r')).
  { unfold r, r'. rewrite !directory_logs.
    eapply perm_trans; [apply Permutation_sym, sorted_by_perm|].
    eapply perm_trans; [|apply sorted_by_perm].
    now apply Permutation_flat_map. }
  destruct (directory_counts fs files tid) as (He & Hw & Hi & Ht).
  destruct (directory_counts fs files' tid) as (He' & Hw' & Hi' & Ht').
  fold r in He, Hw, Hi, Ht. fold r' in He', Hw', Hi', Ht'.
  split; [exact PL|]. split.
  - apply (sorted_perm_unique Datetime.ltb);
      [exact ltb_irrefl | exact ltb_antisym | | |].
    + apply StronglySorted_map. unfold r. rewrite directory_logs.
      apply sort_logs_sorted.
    + apply StronglySorted_map. unfold r'. rewrite directory_logs.
      apply sort_logs_sorted.
    + now apply Permutation_map.
  - rewrite Ht, Ht', He, He', Hw, Hw', Hi, Hi'.
    rewrite (Permutation_length PL).
    rewrite !(count_level_perm _ _ _ PL). auto.
Qed.

(** X19 at two files taken in either order. *)
Lemma X19_witness :
  let fs := Samples.holding (Samples.unlines Samples.scenario) in
  map parse_timestamp
      (logs (_parse_trace_logs_from_directory fs ["a.log"; "b.log"]
                                              "req-42"))
  = map parse_timestamp
        (logs (_parse_trace_logs_from_directory fs ["b.log"; "a.log"]
                                                "req-42")).
Proof.
  intros fs.
  exact (proj1 (proj2 (X19_merge_depends_on_file_order_only_in_ties
                         fs ["a.log"; "b.log"]%string
                         ["b.log"; "a.log"]%string "req-42"
                         (perm_swap _ _ _)))).
Defined.





(** X15 at a file with three error lines of two exception types. *)
Lemma X15_witness :
  let r := FullLog._parse_log_file
             (Samples.holding
                (Samples.unlines
                   ["ERROR a NullPointerException";
                    "ERROR b IOError";
                    "ERROR c NullPointerException"]%string))
             "app.log" in
  2 = count_occ string_dec
        (flat_map (fun e => match FullLog.exception_type e with
                            | Some t => [t]
                            | None => []
                            end) (FullLog.errors r))
        "NullPointerException"%string.
Proof.
  intros r.
  destruct (X15_error_types_are_the_ten_most_common
              (Samples.holding
                 (Samples.unlines
                    ["ERROR a NullPointerException";
                     "ERROR b IOError";
                     "ERROR c NullPointerException"]%string))
              "app.log") as (_ & _ & _ & H & _).
  apply (H "NullPointerException"%string 2). vm_compute. left. reflexivity.
Defined.

(** X16 at a walk of one directory with a log file and another file. *)
Lemma X16_witness :
  In "/var/log/app.log"%string
     (FileScan._scan_log_files
        (fun _ => Some [("/var/log", [], ["notes.md"; "app.log"])]%string)
        "/var/log").
Proof.
  pose proof (X16_scan_returns_the_log_files_sorted
                (fun _ => Some [("/var/log", [], ["notes.md"; "app.log"])]%string)
                "/var/log") as H.
  cbv zeta in H. cbv beta iota in H.
  destruct H as (_ & _ & H & _).
  apply (H "/var/log"%string [] ["notes.md"; "app.log"]%string
           "app.log"%string).
  - left. reflexivity.
  - right. left. reflexivity.
  - reflexivity.
Defined.

(** X17 at a walk of one directory and two files with the scenario. *)
Lemma X17_witness :
  exists l,
    source_files
      (_parse_trace_logs_from_directory
         (Samples.holding (Samples.unlines Samples.scenario))
         (FileScan._scan_log_files
            (fun _ => Some [("/var/log", [], ["b.log"; "a.log"])]%string)
            "/var/log")
         "req-42")
    = Some l /\
    StronglySorted (fun a b => FileScan.str_ltb b a = false) l.
Proof.
  destruct (X17_source_files_of_a_scanned_directory_are_sorted
              (fun _ => Some [("/var/log", [], ["b.log"; "a.log"])]%string)
              (Samples.holding (Samples.unlines Samples.scenario))
              "/var/log" "req-42") as (l & H1 & H2 & _).
  exists l. split; [exact H1 | exact H2].
Defined.
